(** * mdasio: a little-endian wire codec over an io.Reader / io.Writer pair

    Shallow embedding of [mdasio.go] and the properties of its encode and
    decode operations.

    Conventions of the embedding.
    - A Go fixed-width integer is a [Z]; every conversion between widths is
      written out with [uint] (truncate to w bits) and [sint] (truncate and
      reinterpret as two's complement).  Go's [int] is [intSize] bits wide
      (32 or 64, depending on the platform); [intSize] is a parameter.
    - A [float32] is represented by its IEEE-754 bit pattern, which is all
      [math.Float32bits] and [math.Float32frombits] look at.
    - A Go [string] and a [[]byte] are both [list byte].
    - A Go function returning [(T, error)] returns a pair [T * option error]
      ([None] is [nil]); a call can also panic, or (for the retrying writer)
      never return, which the fuel-indexed model reports as [OutOfFuel].
    - The read side is an in-memory byte stream (the unread bytes); the
      write side is any implementation of the [Writer] interface.
    - [make] panics where [runtime.makeslice] does: on a negative length
      and on a size above [maxAlloc].  A machine that runs out of memory
      below that limit is not modelled. *)

From Stdlib Require Import ZArith List Lia Bool.
From coqutil Require Import Byte Word.LittleEndianList.
Import ListNotations.
Local Open Scope Z_scope.

(** ** Integers, errors, outcomes *)

(** [uintN(x)]: keep the low [w] bits. *)
Definition uint (w x : Z) : Z := x mod 2 ^ w.

(** [intN(x)]: keep the low [w] bits, read as two's complement. *)
Definition sint (w x : Z) : Z := (x + 2 ^ (w - 1)) mod 2 ^ w - 2 ^ (w - 1).

(** [ErrNoFullWrite] is the package's own error; [EOF] and [ErrUnexpectedEOF]
    are the two errors [io.ReadFull] produces on an exhausted stream;
    [IOError] stands for whatever else a reader or writer may return. *)
Inductive error : Type :=
| ErrNoFullWrite
| EOF
| ErrUnexpectedEOF
| IOError (code : Z).

Inductive panic : Type :=
| IndexOutOfRange
| SliceBoundsOutOfRange
| MakeLenOutOfRange.

Inductive outcome (A : Type) : Type :=
| Ret (a : A)
| Panic (p : panic)
| OutOfFuel.
Arguments Ret {A} a.
Arguments Panic {A} p.
Arguments OutOfFuel {A}.

(** ** Slices *)

Definition len {A} (l : list A) : Z := Z.of_nat (length l).

(** [runtime.maxAlloc], the largest number of bytes one allocation may
    have: 2^32 - 1 where pointers have 32 bits, 2^48 where they have 64
    (amd64, arm64). *)
Definition maxAlloc (intSize : Z) : Z :=
  if intSize =? 32 then 2 ^ 32 - 1 else 2 ^ 48.

(** The size in bytes of a slice value (pointer, length, capacity), the
    element of a [[][]float32]. *)
Definition sliceSize (intSize : Z) : Z := 3 * (intSize / 8).

(** [make([]T, n)] with every element [zero], for elements of [elemSize]
    bytes: [runtime.makeslice] panics when the length is negative or the
    [elemSize * n] bytes asked for are more than [maxAlloc].  (Running out
    of memory below that limit is not modelled.) *)
Definition make {A} (intSize elemSize : Z) (zero : A) (n : Z) : option (list A) :=
  if (n <? 0) || (maxAlloc intSize <? elemSize * n)
  then None
  else Some (repeat zero (Z.to_nat n)).

(** [b[lo:hi]] for a slice whose capacity equals its length. *)
Definition slice {A} (b : list A) (lo hi : Z) : option (list A) :=
  if (0 <=? lo) && (lo <=? hi) && (hi <=? len b)
  then Some (firstn (Z.to_nat (hi - lo)) (skipn (Z.to_nat lo) b))
  else None.

(** [b[i]] *)
Definition index {A} (b : list A) (i : Z) : option A :=
  if (0 <=? i) && (i <? len b) then nth_error b (Z.to_nat i) else None.

(** [b[i] = x] *)
Definition store {A} (b : list A) (i : Z) (x : A) : option (list A) :=
  if (0 <=? i) && (i <? len b)
  then Some (firstn (Z.to_nat i) b ++ x :: skipn (S (Z.to_nat i)) b)
  else None.

(** [copy(dst, src)] at offset 0, for [len(src) <= len(dst)]: what writing
    through the sub-slice [dst[:len(src)]] does to [dst]. *)
Definition overwrite (src dst : list byte) : list byte :=
  src ++ skipn (length src) dst.

(** ** Domain values *)

Record float32 : Type := Float32frombits { Float32bits : Z }.

Record Unit : Type := mkUnit { Id : list byte; Name : list byte; Type_ : list byte }.

Record Point : Type := mkPoint { Lat : float32; Lon : float32 }.

Definition Geometry : Type := list byte.

Record GridHeader : Type := mkGridHeader {
  N : Z;
  M : Z;
  MinLat : float32;
  MaxLat : float32;
  MinLon : float32;
  MaxLon : float32;
  StepLat : float32;
  StepLon : float32
}.

Record Grid : Type := mkGrid { header : GridHeader; Data : list (list float32) }.

Definition f0 : float32 := Float32frombits 0.

(** ** The [time] package, as far as the codec uses it

    A [time.Time] is an instant: whole seconds since the Unix epoch and the
    nanoseconds within that second.  Locations are not modelled. *)
Record Time : Type := mkTime { unixSec : Z; nsec : Z }.

(** [t.Unix()] *)
Definition Time_Unix (t : Time) : Z := unixSec t.

(** [time.Unix(sec, nsec)] *)
Definition time_Unix (sec ns : Z) : Time :=
  mkTime (sec + ns / 1000000000) (ns mod 1000000000).

(** [time.Time{}]: January 1, year 1, 00:00:00 UTC. *)
Definition zeroTime : Time := mkTime (-62135596800) 0.

Definition Duration : Type := Z.

(** ** The two ends of the stream *)

(** [io.Writer]: [Write s b] is one call [w.Write(b)] on a sink in state [s];
    it reports a byte count and an error and leaves the sink in a new state.
    Nothing is assumed about the count. *)
Class Writer (S : Type) : Type :=
  Write : S -> list byte -> (Z * option error) * S.

(** [io.ReadFull(rd, b)] on an in-memory reader holding [rd]: fills [b] from
    the stream.  Returns the buffer, the error and the unread rest.  With
    [len(b) = 0] nothing is read; an empty stream gives [EOF]; a stream
    shorter than [b] is copied into the front of [b] and gives
    [ErrUnexpectedEOF]. *)
Definition io_ReadFull (rd b : list byte) : (list byte * option error) * list byte :=
  if (length b =? 0)%nat then (b, None, rd)
  else if (length rd =? 0)%nat then (b, Some EOF, rd)
  else if (length rd <? length b)%nat
       then (overwrite rd b, Some ErrUnexpectedEOF, [])
       else (firstn (length b) rd, None, skipn (length b) rd).

Record MdasIO (S : Type) : Type := mkMdasIO {
  r : list byte;
  w : S;
  buf : list byte
}.
Arguments mkMdasIO {S} r w buf.
Arguments r {S} m.
Arguments w {S} m.
Arguments buf {S} m.

Definition NewMdasIO {S} (rd : list byte) (wr : S) : MdasIO S :=
  mkMdasIO rd wr (repeat Byte.x00 8).

(** ** A small state monad with panics and divergence *)

Definition IO (S A : Type) : Type := MdasIO S -> outcome (A * MdasIO S).

Definition ret {S A} (a : A) : IO S A := fun m => Ret (a, m).

Definition bind {S A B} (c : IO S A) (k : A -> IO S B) : IO S B :=
  fun m => match c m with
           | Ret (a, m') => k a m'
           | Panic p => Panic p
           | OutOfFuel => OutOfFuel
           end.

Definition raise {S A} (p : panic) : IO S A := fun _ => Panic p.

Notation "x <- c ;; k" := (bind c (fun x => k))
  (at level 61, c at next level, right associativity).
Notation "' p <- c ;; k" := (bind c (fun x => let p := x in k))
  (at level 61, p pattern, c at next level, right associativity).
Notation "c ;; k" := (bind c (fun _ => k))
  (at level 61, right associativity).

(** [if x, err = c; err != nil { return partial(x), err }] followed by [k x]. *)
Definition try {S A B} (c : IO S (A * option error)) (partial : A -> B)
    (k : A -> IO S (B * option error)) : IO S (B * option error) :=
  ' (a, err) <- c ;;
  match err with
  | Some e => ret (partial a, Some e)
  | None => k a
  end.

Section Codec.
Context {S : Type} {W : Writer S}.
Variable intSize : Z.

Local Abbreviation IO := (IO S).

(** Go's [int] arithmetic. *)
Definition int_mul (a b : Z) : Z := sint intSize (a * b).
Definition int_add (a b : Z) : Z := sint intSize (a + b).

(** [io.ReadFull(m.r, m.buf[:k])] *)
Definition readBuf (k : nat) : IO (option error) := fun m =>
  let '(b, err, rd) := io_ReadFull (r m) (firstn k (buf m)) in
  Ret (err, mkMdasIO rd (w m) (overwrite b (buf m))).

(** [io.ReadFull(m.r, b)] for a buffer [b] of the caller. *)
Definition readInto (b : list byte) : IO (list byte * option error) := fun m =>
  let '(b', err, rd) := io_ReadFull (r m) b in
  Ret ((b', err), mkMdasIO rd (w m) (buf m)).

(** [m.buf[:k]] *)
Definition getBuf (k : nat) : IO (list byte) := fun m => Ret (firstn k (buf m), m).

(** [binary.LittleEndian.PutUintN(m.buf[:k], x)] and [m.buf[0] = x] *)
Definition putBuf (bs : list byte) : IO unit := fun m =>
  Ret (tt, mkMdasIO (r m) (w m) (overwrite bs (buf m))).

(** [m.w.Write(b)] *)
Definition sinkWrite (b : list byte) : IO (Z * option error) := fun m =>
  let '(res, s) := Write (w m) b in Ret (res, mkMdasIO (r m) s (buf m)).

(** *** Decoding *)

Definition ReadBool : IO (bool * option error) :=
  err <- readBuf 1 ;;
  match err with
  | Some e => ret (false, Some e)
  | None => b <- getBuf 1 ;; ret (negb (le_combine b =? 0), None)
  end.

Definition ReadInt16 : IO (Z * option error) :=
  err <- readBuf 2 ;;
  match err with
  | Some e => ret (0, Some e)
  | None => b <- getBuf 2 ;; ret (sint 16 (le_combine b), None)
  end.

Definition ReadInt : IO (Z * option error) :=
  err <- readBuf 4 ;;
  match err with
  | Some e => ret (0, Some e)
  | None => b <- getBuf 4 ;; ret (sint intSize (le_combine b), None)
  end.

Definition ReadInt64 : IO (Z * option error) :=
  err <- readBuf 8 ;;
  match err with
  | Some e => ret (0, Some e)
  | None => b <- getBuf 8 ;; ret (sint 64 (le_combine b), None)
  end.

Definition ReadFloat : IO (float32 * option error) :=
  err <- readBuf 4 ;;
  match err with
  | Some e => ret (f0, Some e)
  | None => b <- getBuf 4 ;; ret (Float32frombits (le_combine b), None)
  end.

Definition ReadString : IO (list byte * option error) :=
  try ReadInt (fun _ => []) (fun strLen =>
    match make intSize 1 Byte.x00 strLen with
    | None => raise MakeLenOutOfRange
    | Some newBuf =>
        ' (b, err) <- readInto newBuf ;;
        match err with
        | Some e => ret ([], Some e)
        | None => ret (b, None)
        end
    end).

Definition ReadDate : IO (Time * option error) :=
  try ReadInt64 (fun _ => zeroTime) (fun sec => ret (time_Unix sec 0, None)).

Definition ReadDuration : IO (Duration * option error) :=
  try ReadInt64 (fun _ => 0) (fun ns => ret (ns, None)).

Definition ReadPoint : IO (Point * option error) :=
  try ReadFloat (fun lat => mkPoint lat f0) (fun lat =>
  try ReadFloat (fun lon => mkPoint lat lon) (fun lon =>
  ret (mkPoint lat lon, None))).

Definition ReadGeometry : IO (Geometry * option error) := ReadString.

Definition ReadUnit : IO (Unit * option error) :=
  try ReadString (fun id => mkUnit id [] []) (fun id =>
  try ReadString (fun name => mkUnit id name []) (fun name =>
  try ReadString (fun ty => mkUnit id name ty) (fun ty =>
  ret (mkUnit id name ty, None)))).

(** The header part of [ReadGrid]: the [if ... else if ...] chain.  Each
    field is assigned before its error is looked at, so on failure the
    grid returned holds the fields decoded so far. *)
Definition ReadGrid_header : IO (Grid * option error) :=
  let g n mm a b c d e f := mkGrid (mkGridHeader n mm a b c d e f) [] in
  try ReadInt   (fun n => g n 0 f0 f0 f0 f0 f0 f0) (fun n =>
  try ReadInt   (fun mm => g n mm f0 f0 f0 f0 f0 f0) (fun mm =>
  try ReadFloat (fun a => g n mm a f0 f0 f0 f0 f0) (fun a =>
  try ReadFloat (fun b => g n mm a b f0 f0 f0 f0) (fun b =>
  try ReadFloat (fun c => g n mm a b c f0 f0 f0) (fun c =>
  try ReadFloat (fun d => g n mm a b c d f0 f0) (fun d =>
  try ReadFloat (fun e => g n mm a b c d e f0) (fun e =>
  try ReadFloat (fun f => g n mm a b c d e f) (fun f =>
  ret (g n mm a b c d e f, None))))))))).

(** The inner loop of [ReadGrid], [for j := 0; j < grid.M; j++], with [n]
    iterations left: each float is taken from [m.buf[4*j : 4*j+4]]. *)
Fixpoint ReadGrid_cols (n : nat) (j : Z) (mbuf : list byte) (row : list float32)
    : outcome (list float32) :=
  match n with
  | O => Ret row
  | Datatypes.S n' =>
      match slice mbuf (int_mul 4 j) (int_add (int_mul 4 j) 4) with
      | None => Panic SliceBoundsOutOfRange
      | Some bs =>
          match store row j (Float32frombits (le_combine bs)) with
          | None => Panic IndexOutOfRange
          | Some row' => ReadGrid_cols n' (j + 1) mbuf row'
          end
      end
  end.

(** The outer loop of [ReadGrid], [for i := 0; i < grid.N; i++], with [n]
    iterations left. *)
Fixpoint ReadGrid_rows (n : nat) (i : Z) (rowBuf : list byte) (grid : Grid)
    : IO (Grid * option error) :=
  match n with
  | O => ret (grid, None)
  | Datatypes.S n' =>
      ' (rowBuf', err) <- readInto rowBuf ;;
      match err with
      | Some e => ret (grid, Some e)
      | None =>
          match make intSize 4 f0 (M (header grid)) with
          | None => raise MakeLenOutOfRange
          | Some row0 => fun m =>
              match ReadGrid_cols (Z.to_nat (M (header grid))) 0 (buf m) row0 with
              | Ret row =>
                  match store (Data grid) i row with
                  | None => Panic IndexOutOfRange
                  | Some data =>
                      ReadGrid_rows n' (i + 1) rowBuf' (mkGrid (header grid) data) m
                  end
              | Panic p => Panic p
              | OutOfFuel => OutOfFuel
              end
          end
      end
  end.

Definition ReadGrid : IO (Grid * option error) :=
  ' (grid, err) <- ReadGrid_header ;;
  match err with
  | Some e => ret (grid, Some e)
  | None =>
      match make intSize 1 Byte.x00 (int_mul 4 (M (header grid))) with
      | None => raise MakeLenOutOfRange
      | Some rowBuf =>
          match make intSize (sliceSize intSize) (@nil float32) (N (header grid)) with
          | None => raise MakeLenOutOfRange
          | Some data =>
              ReadGrid_rows (Z.to_nat (N (header grid))) 0 rowBuf
                (mkGrid (header grid) data)
          end
      end
  end.

(** *** Encoding *)

(** The common tail of the fixed-width writers: one [Write] of
    [m.buf[:k]], an error of the sink is returned as it is, a count other
    than [k] is [ErrNoFullWrite]. *)
Definition writeBuf (k : nat) : IO (option error) :=
  b <- getBuf k ;;
  ' (n, err) <- sinkWrite b ;;
  match err with
  | Some e => ret (Some e)
  | None => if n =? Z.of_nat k then ret None else ret (Some ErrNoFullWrite)
  end.

Definition WriteBool (v : bool) : IO (option error) :=
  putBuf [if v then Byte.x01 else Byte.x00] ;; writeBuf 1.

Definition WriteInt16 (v : Z) : IO (option error) :=
  putBuf (le_split 2 (uint 16 v)) ;; writeBuf 2.

Definition WriteInt (v : Z) : IO (option error) :=
  putBuf (le_split 4 (uint 32 v)) ;; writeBuf 4.

Definition WriteInt64 (v : Z) : IO (option error) :=
  putBuf (le_split 8 (uint 64 v)) ;; writeBuf 8.

Definition WriteFloat (v : float32) : IO (option error) :=
  putBuf (le_split 4 (Float32bits v)) ;; writeBuf 4.

(** [for len(b) > 0 { n, err := m.w.Write(b); ...; b = b[n:] }].  [fuel]
    bounds the number of iterations; [OutOfFuel] says the loop was still
    running when the bound was reached. *)
Fixpoint writeAll (fuel : nat) (b : list byte) : IO (option error) :=
  match b with
  | [] => ret None
  | _ :: _ =>
      match fuel with
      | O => fun _ => OutOfFuel
      | Datatypes.S fuel' =>
          ' (n, err) <- sinkWrite b ;;
          match err with
          | Some e => ret (Some e)
          | None =>
              match slice b n (len b) with
              | None => raise SliceBoundsOutOfRange
              | Some b' => writeAll fuel' b'
              end
          end
      end
  end.

Definition WriteString (fuel : nat) (v : list byte) : IO (option error) :=
  err <- WriteInt (len v) ;;
  match err with
  | Some e => ret (Some e)
  | None => writeAll fuel v
  end.

Definition WriteDate (v : Time) : IO (option error) := WriteInt64 (Time_Unix v).

Definition WriteDuration (v : Duration) : IO (option error) := WriteInt64 v.

Definition WritePoint (v : Point) : IO (option error) :=
  err <- WriteFloat (Lat v) ;;
  match err with
  | Some e => ret (Some e)
  | None => WriteFloat (Lon v)
  end.

Definition WriteGeometry (fuel : nat) (v : Geometry) : IO (option error) :=
  WriteString fuel v.

(** [if err := c; err != nil { return err }] followed by [k]. *)
Definition andThen (c k : IO (option error)) : IO (option error) :=
  err <- c ;;
  match err with
  | Some e => ret (Some e)
  | None => k
  end.

(** The inner loop of [WriteGrid] with [n] iterations left:
    [PutUint32(rowBuf[4*j:4*j+4], math.Float32bits(v.Data[i][j]))]. *)
Fixpoint WriteGrid_cols (n : nat) (i j : Z) (data : list (list float32))
    (rowBuf : list byte) : outcome (list byte) :=
  match n with
  | O => Ret rowBuf
  | Datatypes.S n' =>
      let lo := int_mul 4 j in
      match slice rowBuf lo (int_add lo 4) with
      | None => Panic SliceBoundsOutOfRange
      | Some _ =>
          match index data i with
          | None => Panic IndexOutOfRange
          | Some row =>
              match index row j with
              | None => Panic IndexOutOfRange
              | Some x =>
                  WriteGrid_cols n' i (j + 1) data
                    (firstn (Z.to_nat lo) rowBuf ++ le_split 4 (Float32bits x)
                       ++ skipn (Z.to_nat lo + 4) rowBuf)
              end
          end
      end
  end.

(** The outer loop of [WriteGrid] with [n] iterations left. *)
Fixpoint WriteGrid_rows (fuel n : nat) (i : Z) (v : Grid) (rowBuf : list byte)
    : IO (option error) :=
  match n with
  | O => ret None
  | Datatypes.S n' =>
      match WriteGrid_cols (Z.to_nat (M (header v))) i 0 (Data v) rowBuf with
      | Ret rowBuf' =>
          andThen (writeAll fuel rowBuf') (WriteGrid_rows fuel n' (i + 1) v rowBuf')
      | Panic p => raise p
      | OutOfFuel => fun _ => OutOfFuel
      end
  end.

Definition WriteGrid (fuel : nat) (v : Grid) : IO (option error) :=
  let h := header v in
  andThen (WriteInt (N h)) (
  andThen (WriteInt (M h)) (
  andThen (WriteFloat (MinLat h)) (
  andThen (WriteFloat (MaxLat h)) (
  andThen (WriteFloat (MinLon h)) (
  andThen (WriteFloat (MaxLon h)) (
  andThen (WriteFloat (StepLat h)) (
  andThen (WriteFloat (StepLon h)) (
    match make intSize 1 Byte.x00 (int_mul 4 (M h)) with
    | None => raise MakeLenOutOfRange
    | Some rowBuf => WriteGrid_rows fuel (Z.to_nat (N h)) 0 v rowBuf
    end)))))))).

End Codec.

(** ** Sinks *)

(** An in-memory sink that takes everything it is given ([bytes.Buffer]). *)
Record Buffer : Type := mkBuffer { contents : list byte }.

#[export] Instance Buffer_Writer : Writer Buffer :=
  fun s b => ((len b, None), mkBuffer (contents s ++ b)).

(** A sink that takes at most [chunk] bytes per call and reports no error. *)
Record Chunked : Type := mkChunked { chunk : nat; taken : list byte }.

#[export] Instance Chunked_Writer : Writer Chunked :=
  fun s b => ((len (firstn (chunk s) b), None),
              mkChunked (chunk s) (taken s ++ firstn (chunk s) b)).

(** A sink that reports zero bytes and no error for its first [stalls]
    calls and takes everything afterwards. *)
Record Stalling : Type := mkStalling { stalls : nat; passed : list byte }.

#[export] Instance Stalling_Writer : Writer Stalling :=
  fun s b => match stalls s with
             | O => ((len b, None), mkStalling O (passed s ++ b))
             | Datatypes.S k => ((0, None), mkStalling k (passed s))
             end.

(** A sink that reports zero bytes and no error, always. *)
Inductive Stuck : Type := stuck.

#[export] Instance Stuck_Writer : Writer Stuck :=
  fun s _ => ((0, None), s).

(** A sink that reports one byte more than it was given, and no error. *)
Inductive Inflating : Type := inflating.

#[export] Instance Inflating_Writer : Writer Inflating :=
  fun s b => ((len b + 1, None), s).

(** A sink that fails every call with the same error. *)
Record Broken : Type := mkBroken { failure : error }.

#[export] Instance Broken_Writer : Writer Broken :=
  fun s _ => ((0, Some (failure s)), s).

(** Any sink, with a log of the calls made to it: the bytes offered, the
    count and the error reported. *)
Record Recorder (S : Type) : Type := mkRecorder {
  inner : S;
  calls : list (list byte * Z * option error)
}.
Arguments mkRecorder {S} inner calls.
Arguments inner {S} _.
Arguments calls {S} _.

#[export] Instance Recorder_Writer {S} {W : Writer S} : Writer (Recorder S) :=
  fun s b => let '((n, err), s') := Write (inner s) b in
             ((n, err), mkRecorder s' (calls s ++ [(b, n, err)])).

(** ** Running a call *)

(** A codec that writes into an empty in-memory buffer, and one that reads
    a given byte sequence. *)
Definition encoder : MdasIO Buffer := NewMdasIO [] (mkBuffer []).
Definition decoder (bytes : list byte) : MdasIO unit := NewMdasIO bytes tt.

(** The bytes a call left in the buffer, the value it returned and the
    bytes it left unread. *)
Definition written {A} (o : outcome (A * MdasIO Buffer)) : list byte :=
  match o with Ret (_, m) => contents (w m) | _ => [] end.
Definition value {S A} (o : outcome (A * MdasIO S)) : option A :=
  match o with Ret (a, _) => Some a | _ => None end.
Definition unread {S A} (o : outcome (A * MdasIO S)) : list byte :=
  match o with Ret (_, m) => r m | _ => [] end.

(** The scratch buffer of a codec built by [NewMdasIO] has 8 bytes and no
    operation changes its length. *)
Definition wf {S} (m : MdasIO S) : Prop := length (buf m) = 8%nat.

(** The state after a successful read of [pre] through the scratch buffer. *)
Definition advance {S} (m : MdasIO S) (pre rest : list byte) : MdasIO S :=
  mkMdasIO rest (w m) (overwrite pre (buf m)).

(** The two errors of a stream that ends too early. *)
Definition truncation (e : error) : Prop := e = EOF \/ e = ErrUnexpectedEOF.

(** What a fixed-width writer makes of the count and error of its one
    [Write] of [k] bytes. *)
Definition verdict (k : nat) (res : Z * option error) : option error :=
  match snd res with
  | Some e => Some e
  | None => if fst res =? Z.of_nat k then None else Some ErrNoFullWrite
  end.

(** The state of a codec on a [Buffer] after [bs] went out and the scratch
    buffer became [scratch]. *)
Definition emit (m : MdasIO Buffer) (bs scratch : list byte) : MdasIO Buffer :=
  mkMdasIO (r m) (mkBuffer (contents (w m) ++ bs)) scratch.

(** [t.Truncate(time.Second)]: the instant without its sub-second part. *)
Definition truncateToSecond (t : Time) : Time := mkTime (unixSec t) 0.

(** ** Sample values

    Bit patterns of the floats used below: -10, 10, 0, 20 and 1 .. 6. *)
Definition scenario : Grid :=
  mkGrid
    (mkGridHeader 2 3
       (Float32frombits 0xC1200000) (Float32frombits 0x41200000)
       (Float32frombits 0x00000000) (Float32frombits 0x41A00000)
       (Float32frombits 0x3F800000) (Float32frombits 0x40000000))
    [[Float32frombits 0x3F800000; Float32frombits 0x40000000;
      Float32frombits 0x40400000];
     [Float32frombits 0x40800000; Float32frombits 0x40A00000;
      Float32frombits 0x40C00000]].

(** A grid of one row and one column holding 5.0, with [StepLon] 2.0. *)
Definition single : Grid :=
  mkGrid
    (mkGridHeader 1 1
       (Float32frombits 0xC1200000) (Float32frombits 0x41200000)
       (Float32frombits 0x00000000) (Float32frombits 0x41A00000)
       (Float32frombits 0x3F800000) (Float32frombits 0x40000000))
    [[Float32frombits 0x40A00000]].

(** ** Wire forms

    The bytes of a length-prefixed string, as [WriteString] leaves them in
    a buffer (lemma [WriteString_Buffer]). *)
Definition wireString (v : list byte) : list byte :=
  le_split 4 (uint 32 (len v)) ++ v.

Definition wireUnit (u : Unit) : list byte :=
  wireString (Id u) ++ wireString (Name u) ++ wireString (Type_ u).

(** Modelled from the spec: the package has [ReadUnit] but no encoder for
    a [Unit]; the spec gives its wire form as the three strings id, name
    and type in this order, so a [Unit] is encoded here by three calls of
    [WriteString]. *)
Definition writeUnit {S} {W : Writer S} (fuel : nat) (u : Unit)
    : IO S (option error) :=
  andThen (WriteString fuel (Id u))
    (andThen (WriteString fuel (Name u)) (WriteString fuel (Type_ u))).

(** Every field of the unit fits a 32-bit signed length prefix. *)
Definition unitFits (u : Unit) : Prop :=
  len (Id u) < 2 ^ 31 /\ len (Name u) < 2 ^ 31 /\ len (Type_ u) < 2 ^ 31.

(** ** Termination of a fuel-indexed call

    [c fuel] is the call run with at most [fuel] loop iterations.  The call
    terminates when some bound is enough for it to return or panic, and
    diverges when no bound is. *)
Definition terminates {A} (c : nat -> outcome A) : Prop :=
  exists fuel, c fuel <> OutOfFuel.

Definition diverges {A} (c : nat -> outcome A) : Prop :=
  forall fuel, c fuel = OutOfFuel.

(** Every [Write] call with something to write returns an error or reports
    at least one byte written. *)
Definition progresses (S : Type) {W : Writer S} : Prop :=
  forall (s : S) (b : list byte),
    b <> [] -> snd (fst (Write s b)) <> None \/ 1 <= fst (fst (Write s b)).

(** Every [Write] call reports zero bytes written and no error. *)
Definition stalled (S : Type) {W : Writer S} : Prop :=
  forall (s : S) (b : list byte), fst (Write s b) = (0, None).

(** ** Reading a call log *)

(** The bytes a logged call took: the first [n] of those offered. *)
Definition tookOf (c : list byte * Z * option error) : list byte :=
  firstn (Z.to_nat (snd (fst c))) (fst (fst c)).

Definition errOf (c : list byte * Z * option error) : option error := snd c.

(** A codec on a recording sink, seen as a codec on the sink recorded. *)
Definition forget {S} (m : MdasIO (Recorder S)) : MdasIO S :=
  mkMdasIO (r m) (inner (w m)) (buf m).

Definition erase {S A} (o : outcome (A * MdasIO (Recorder S)))
    : outcome (A * MdasIO S) :=
  match o with
  | Ret (a, m) => Ret (a, forget m)
  | Panic p => Panic p
  | OutOfFuel => OutOfFuel
  end.

(** The call [c], which makes one [Write] of [bs], answers a sink that takes
    fewer bytes than [bs] has and reports no error with [ErrNoFullWrite],
    leaving the sink as that one [Write] left it. *)
Definition failsShort {S} {W : Writer S} (c : IO S (option error))
    (bs : list byte) : Prop :=
  forall (m : MdasIO S) (n : Z) (s' : S),
    Write (w m) bs = ((n, None), s') -> n < len bs ->
    exists m', c m = Ret (Some ErrNoFullWrite, m') /\ w m' = s'.

(** ** Grids and their data *)

(** Every element [WriteGrid] indexes is there: if there is a column to
    write at all, each of the first [N] rows exists and has at least [M]
    columns. *)
Definition covered (v : Grid) : Prop :=
  0 < M (header v) ->
  forall i : Z, 0 <= i < N (header v) ->
    exists row, index (Data v) i = Some row /\ M (header v) <= len row.


(** One row and no column declared, and no data at all. *)
Definition hollow : Grid :=
  mkGrid (mkGridHeader 1 0 f0 f0 f0 f0 f0 f0) [].


(** ** Streams that end too early *)

(** The call returned a truncation error, next to the value [zero]. *)
Definition failsWith {S A} (zero : A) (o : outcome ((A * option error) * MdasIO S))
    : Prop :=
  exists e m', o = Ret ((zero, Some e), m') /\ truncation e.

(** [s] is [full] cut short. *)
Definition strictPrefix (s full : list byte) : Prop :=
  exists k, (k < length full)%nat /\ s = firstn k full.

(** ** What a call leaves alone *)

(** A call that, when it returns, has kept the scratch buffer at 8 bytes,
    has not touched the sink, and has taken its bytes from the front of
    the input. *)
Definition readsOnly {S A} (c : IO S A) : Prop :=
  forall (m : MdasIO S) (a : A) (m' : MdasIO S),
    wf m -> c m = Ret (a, m') ->
    wf m' /\ w m' = w m /\ exists consumed, r m = consumed ++ r m'.

(** A call that, when it returns, has kept the scratch buffer at 8 bytes
    and has not touched the input. *)
Definition writesOnly {S A} (c : IO S A) : Prop :=
  forall (m : MdasIO S) (a : A) (m' : MdasIO S),
    wf m -> c m = Ret (a, m') -> wf m' /\ r m' = r m.

(** ** The wire form of a grid, as [WriteGrid] leaves it in a buffer *)

Definition wireFloat (x : float32) : list byte := le_split 4 (Float32bits x).

Definition wireHeader (h : GridHeader) : list byte :=
  le_split 4 (uint 32 (N h)) ++ le_split 4 (uint 32 (M h))
    ++ wireFloat (MinLat h) ++ wireFloat (MaxLat h)
    ++ wireFloat (MinLon h) ++ wireFloat (MaxLon h)
    ++ wireFloat (StepLat h) ++ wireFloat (StepLon h).

(** The first [cols] cells of a row. *)
Definition wireRow (cols : Z) (row : list float32) : list byte :=
  concat (map wireFloat (firstn (Z.to_nat cols) row)).

(** The header and then the first [N] rows, one after the other. *)
Definition wireGrid (g : Grid) : list byte :=
  wireHeader (header g)
    ++ concat (map (wireRow (M (header g)))
                 (firstn (Z.to_nat (N (header g))) (Data g))).


(** ** Sinks that advance *)

(** Every [Write] call with something to write returns an error, or
    reports a count of at least one byte and at most the bytes offered. *)
Definition advances (S : Type) {W : Writer S} : Prop :=
  forall (s : S) (b : list byte),
    b <> [] ->
    snd (fst (Write s b)) <> None \/ 1 <= fst (fst (Write s b)) <= len b.

(** The state of a codec on a [Chunked] sink after [bs] went out and the
    scratch buffer became [scratch]. *)
Definition deliver (m : MdasIO Chunked) (bs scratch : list byte) : MdasIO Chunked :=
  mkMdasIO (r m) (mkChunked (chunk (w m)) (taken (w m) ++ bs)) scratch.


(** ** What a decoder has stored when the stream ends *)







(** ** Integer conversions *)

Lemma pow2_split (w : Z) : 0 < w -> 2 ^ w = 2 * 2 ^ (w - 1).
Proof.
  intros Hw. replace w with (Z.succ (w - 1)) at 1 by lia.
  rewrite Z.pow_succ_r by lia. reflexivity.
Qed.

Lemma sint_small (w x : Z) :
  0 < w -> - 2 ^ (w - 1) <= x < 2 ^ (w - 1) -> sint w x = x.
Proof.
  intros Hw Hx. unfold sint.
  rewrite Z.mod_small; [lia | rewrite (pow2_split w Hw); lia].
Qed.

Lemma sint_uint (w x : Z) :
  0 < w -> - 2 ^ (w - 1) <= x < 2 ^ (w - 1) -> sint w (uint w x) = x.
Proof.
  intros Hw Hx. unfold sint, uint.
  rewrite Zplus_mod_idemp_l.
  rewrite Z.mod_small; [lia | rewrite (pow2_split w Hw); lia].
Qed.

Lemma uint_small (w x : Z) : 0 <= x < 2 ^ w -> uint w x = x.
Proof. intros Hx. unfold uint. apply Z.mod_small; exact Hx. Qed.

Lemma le_combine_split_uint (k : nat) (w x : Z) :
  w = Z.of_nat k * 8 -> le_combine (le_split k (uint w x)) = uint w x.
Proof.
  intros ->. rewrite le_combine_split. unfold uint.
  apply Z.mod_mod. apply Z.pow_nonzero; lia.
Qed.

(** ** Slices and the scratch buffer *)

Lemma firstn_overwrite (bs b : list byte) :
  firstn (length bs) (overwrite bs b) = bs.
Proof.
  unfold overwrite. rewrite firstn_app, Nat.sub_diag, firstn_all. simpl.
  apply app_nil_r.
Qed.

Lemma length_overwrite (bs b : list byte) :
  (length bs <= length b)%nat -> length (overwrite bs b) = length b.
Proof.
  intros H. unfold overwrite. rewrite length_app, length_skipn. lia.
Qed.

Lemma firstn_length_le (k : nat) (b : list byte) :
  (k <= length b)%nat -> length (firstn k b) = k.
Proof. intros H. rewrite length_firstn. lia. Qed.

Lemma wf_NewMdasIO {S} (rd : list byte) (wr : S) : wf (NewMdasIO rd wr).
Proof. reflexivity. Qed.

Lemma wf_advance {S} (m : MdasIO S) (pre rest : list byte) :
  wf m -> (length pre <= 8)%nat -> wf (advance m pre rest).
Proof.
  unfold wf, advance. simpl. intros Hm Hp.
  rewrite length_overwrite; lia.
Qed.

(** ** [io.ReadFull] *)

Lemma io_ReadFull_ok (pre rest b : list byte) :
  length b = length pre ->
  io_ReadFull (pre ++ rest) b = (pre, None, rest).
Proof.
  intros Hb. unfold io_ReadFull.
  destruct (Nat.eqb_spec (length b) 0) as [H0 | H0].
  - destruct pre; [| simpl in Hb; lia]. destruct b; [| discriminate].
    reflexivity.
  - destruct (Nat.eqb_spec (length (pre ++ rest)) 0) as [H1 | H1].
    + rewrite length_app in H1. lia.
    + destruct (Nat.ltb_spec (length (pre ++ rest)) (length b)) as [H2 | H2].
      * rewrite length_app in H2. lia.
      * rewrite Hb, firstn_app, Nat.sub_diag, firstn_all. simpl.
        rewrite app_nil_r.
        rewrite skipn_app, Nat.sub_diag, skipn_all. reflexivity.
Qed.

Lemma io_ReadFull_short (rd b : list byte) :
  (length rd < length b)%nat ->
  exists b' e rd', io_ReadFull rd b = (b', Some e, rd') /\ truncation e /\
                   length b' = length b.
Proof.
  intros H. unfold io_ReadFull.
  destruct (Nat.eqb_spec (length b) 0) as [H0 | H0]; [lia |].
  destruct (Nat.eqb_spec (length rd) 0) as [H1 | H1].
  - exists b, EOF, rd. unfold truncation. auto.
  - destruct (Nat.ltb_spec (length rd) (length b)) as [H2 | H2]; [| lia].
    exists (overwrite rd b), ErrUnexpectedEOF, []. unfold truncation.
    repeat split; auto. apply length_overwrite. lia.
Qed.

(** ** Fixed-width decoding *)

Section Decoding.
Context {S : Type}.
Variable intSize : Z.

Lemma readBuf_ok (k : nat) (m : MdasIO S) (pre rest : list byte) :
  wf m -> (k <= 8)%nat -> length pre = k -> r m = pre ++ rest ->
  readBuf k m = Ret (None, advance m pre rest).
Proof.
  intros Hm Hk Hp Hr. unfold readBuf. rewrite Hr.
  rewrite io_ReadFull_ok; [reflexivity |].
  rewrite firstn_length_le; [auto | rewrite Hm; exact Hk].
Qed.

Lemma readBuf_short (k : nat) (m : MdasIO S) :
  wf m -> (k <= 8)%nat -> (length (r m) < k)%nat ->
  exists e m', readBuf k m = Ret (Some e, m') /\ truncation e /\ wf m' /\
               w m' = w m.
Proof.
  intros Hm Hk Hr. unfold readBuf.
  assert (Hf : length (firstn k (buf m)) = k)
    by (apply firstn_length_le; rewrite Hm; exact Hk).
  destruct (io_ReadFull_short (r m) (firstn k (buf m))) as (b' & e & rd' & E & He & Hb);
    [lia |].
  rewrite E. exists e, (mkMdasIO rd' (w m) (overwrite b' (buf m))).
  repeat split; auto. unfold wf. simpl.
  rewrite length_overwrite; [exact Hm | rewrite Hb, Hf, Hm; exact Hk].
Qed.

Lemma getBuf_advance (k : nat) (m : MdasIO S) (pre rest : list byte) :
  length pre = k ->
  getBuf k (advance m pre rest) = Ret (pre, advance m pre rest).
Proof.
  intros <-. unfold getBuf, advance. simpl. rewrite firstn_overwrite.
  reflexivity.
Qed.

Ltac read_ok k :=
  intros Hm Hp Hr; unfold bind;
  rewrite (readBuf_ok k _ _ _ Hm ltac:(lia) Hp Hr);
  rewrite (getBuf_advance k _ _ _ Hp); reflexivity.

Ltac read_short k :=
  intros Hm Hr; unfold bind;
  destruct (readBuf_short k _ Hm ltac:(lia) Hr) as (e & m' & E & He & Hm' & Hw);
  rewrite E; exists e, m'; auto.

Lemma ReadBool_ok (m : MdasIO S) (pre rest : list byte) :
  wf m -> length pre = 1%nat -> r m = pre ++ rest ->
  ReadBool m = Ret ((negb (le_combine pre =? 0), None), advance m pre rest).
Proof. unfold ReadBool. read_ok 1%nat. Qed.

Lemma ReadInt16_ok (m : MdasIO S) (pre rest : list byte) :
  wf m -> length pre = 2%nat -> r m = pre ++ rest ->
  ReadInt16 m = Ret ((sint 16 (le_combine pre), None), advance m pre rest).
Proof. unfold ReadInt16. read_ok 2%nat. Qed.

Lemma ReadInt_ok (m : MdasIO S) (pre rest : list byte) :
  wf m -> length pre = 4%nat -> r m = pre ++ rest ->
  ReadInt intSize m
  = Ret ((sint intSize (le_combine pre), None), advance m pre rest).
Proof. unfold ReadInt. read_ok 4%nat. Qed.

Lemma ReadInt64_ok (m : MdasIO S) (pre rest : list byte) :
  wf m -> length pre = 8%nat -> r m = pre ++ rest ->
  ReadInt64 m = Ret ((sint 64 (le_combine pre), None), advance m pre rest).
Proof. unfold ReadInt64. read_ok 8%nat. Qed.

Lemma ReadFloat_ok (m : MdasIO S) (pre rest : list byte) :
  wf m -> length pre = 4%nat -> r m = pre ++ rest ->
  ReadFloat m
  = Ret ((Float32frombits (le_combine pre), None), advance m pre rest).
Proof. unfold ReadFloat. read_ok 4%nat. Qed.



Lemma ReadInt_short (m : MdasIO S) :
  wf m -> (length (r m) < 4)%nat ->
  exists e m', ReadInt intSize m = Ret ((0, Some e), m') /\ truncation e /\ wf m'.
Proof. unfold ReadInt. read_short 4%nat. Qed.

Lemma ReadInt64_short (m : MdasIO S) :
  wf m -> (length (r m) < 8)%nat ->
  exists e m', ReadInt64 m = Ret ((0, Some e), m') /\ truncation e /\ wf m'.
Proof. unfold ReadInt64. read_short 8%nat. Qed.


End Decoding.

(** ** Fixed-width encoding *)

Section Encoding.
Context {S : Type} {W : Writer S}.

(** Every fixed-width writer is one [Write] of the encoded bytes. *)
Lemma fixed_write (k : nat) (bs : list byte) (m : MdasIO S) :
  length bs = k ->
  (putBuf bs ;; writeBuf k) m
  = Ret (verdict k (fst (Write (w m) bs)),
         mkMdasIO (r m) (snd (Write (w m) bs)) (overwrite bs (buf m))).
Proof.
  intros <-. unfold bind, putBuf, writeBuf, bind, getBuf, sinkWrite, verdict.
  simpl. rewrite firstn_overwrite.
  destruct (Write (w m) bs) as [[n [e |]] s]; simpl; [reflexivity |].
  destruct (n =? Z.of_nat (length bs)); reflexivity.
Qed.

Lemma WriteBool_eq (v : bool) (m : MdasIO S) :
  WriteBool v m
  = let bs := [if v then Byte.x01 else Byte.x00] in
    Ret (verdict 1 (fst (Write (w m) bs)),
         mkMdasIO (r m) (snd (Write (w m) bs)) (overwrite bs (buf m))).
Proof. unfold WriteBool. apply fixed_write. reflexivity. Qed.

Lemma WriteInt16_eq (v : Z) (m : MdasIO S) :
  WriteInt16 v m
  = let bs := le_split 2 (uint 16 v) in
    Ret (verdict 2 (fst (Write (w m) bs)),
         mkMdasIO (r m) (snd (Write (w m) bs)) (overwrite bs (buf m))).
Proof. unfold WriteInt16. apply fixed_write. apply length_le_split. Qed.

Lemma WriteInt_eq (v : Z) (m : MdasIO S) :
  WriteInt v m
  = let bs := le_split 4 (uint 32 v) in
    Ret (verdict 4 (fst (Write (w m) bs)),
         mkMdasIO (r m) (snd (Write (w m) bs)) (overwrite bs (buf m))).
Proof. unfold WriteInt. apply fixed_write. apply length_le_split. Qed.

Lemma WriteInt64_eq (v : Z) (m : MdasIO S) :
  WriteInt64 v m
  = let bs := le_split 8 (uint 64 v) in
    Ret (verdict 8 (fst (Write (w m) bs)),
         mkMdasIO (r m) (snd (Write (w m) bs)) (overwrite bs (buf m))).
Proof. unfold WriteInt64. apply fixed_write. apply length_le_split. Qed.

Lemma WriteFloat_eq (v : float32) (m : MdasIO S) :
  WriteFloat v m
  = let bs := le_split 4 (Float32bits v) in
    Ret (verdict 4 (fst (Write (w m) bs)),
         mkMdasIO (r m) (snd (Write (w m) bs)) (overwrite bs (buf m))).
Proof. unfold WriteFloat. apply fixed_write. apply length_le_split. Qed.

End Encoding.

(** ** Encoding into a [Buffer] *)

Lemma verdict_Buffer (k : nat) (s : Buffer) (bs : list byte) :
  length bs = k -> verdict k (fst (Write s bs)) = None.
Proof.
  intros <-. unfold verdict, Write, Buffer_Writer, len. simpl.
  rewrite Z.eqb_refl. reflexivity.
Qed.

Lemma WriteBool_Buffer (v : bool) (m : MdasIO Buffer) :
  WriteBool v m
  = let bs := [if v then Byte.x01 else Byte.x00] in
    Ret (None, emit m bs (overwrite bs (buf m))).
Proof. rewrite WriteBool_eq. cbv zeta. rewrite verdict_Buffer; reflexivity. Qed.

Lemma WriteInt16_Buffer (v : Z) (m : MdasIO Buffer) :
  WriteInt16 v m
  = let bs := le_split 2 (uint 16 v) in
    Ret (None, emit m bs (overwrite bs (buf m))).
Proof.
  rewrite WriteInt16_eq. cbv zeta.
  rewrite verdict_Buffer; [reflexivity | apply length_le_split].
Qed.

Lemma WriteInt_Buffer (v : Z) (m : MdasIO Buffer) :
  WriteInt v m
  = let bs := le_split 4 (uint 32 v) in
    Ret (None, emit m bs (overwrite bs (buf m))).
Proof.
  rewrite WriteInt_eq. cbv zeta.
  rewrite verdict_Buffer; [reflexivity | apply length_le_split].
Qed.

Lemma WriteInt64_Buffer (v : Z) (m : MdasIO Buffer) :
  WriteInt64 v m
  = let bs := le_split 8 (uint 64 v) in
    Ret (None, emit m bs (overwrite bs (buf m))).
Proof.
  rewrite WriteInt64_eq. cbv zeta.
  rewrite verdict_Buffer; [reflexivity | apply length_le_split].
Qed.

Lemma WriteFloat_Buffer (v : float32) (m : MdasIO Buffer) :
  WriteFloat v m
  = let bs := le_split 4 (Float32bits v) in
    Ret (None, emit m bs (overwrite bs (buf m))).
Proof.
  rewrite WriteFloat_eq. cbv zeta.
  rewrite verdict_Buffer; [reflexivity | apply length_le_split].
Qed.

Lemma slice_tail {A} (b : list A) :
  slice b (len b) (len b) = Some [].
Proof.
  unfold slice, len.
  rewrite Z.leb_refl, Z.sub_diag.
  destruct (Z.leb_spec 0 (Z.of_nat (length b))); [reflexivity | lia].
Qed.

Lemma writeAll_Buffer (fuel : nat) (b : list byte) (m : MdasIO Buffer) :
  writeAll (Datatypes.S fuel) b m = Ret (None, emit m b (buf m)).
Proof.
  destruct b as [| x b].
  - destruct m as [rd [c] sc]. unfold emit. simpl. rewrite app_nil_r.
    reflexivity.
  - cbn [writeAll]. unfold bind, sinkWrite. cbn [Write Buffer_Writer].
    rewrite slice_tail. destruct fuel; reflexivity.
Qed.

Lemma WriteString_Buffer (fuel : nat) (v : list byte) (m : MdasIO Buffer) :
  WriteString (Datatypes.S fuel) v m
  = let p := le_split 4 (uint 32 (len v)) in
    Ret (None, emit m (p ++ v) (overwrite p (buf m))).
Proof.
  unfold WriteString, bind. rewrite WriteInt_Buffer. cbv beta iota zeta.
  rewrite writeAll_Buffer. unfold emit. simpl. rewrite <- app_assoc.
  reflexivity.
Qed.

(** ** Allocation *)

Lemma maxAlloc_ge (intSize : Z) : 2 ^ 32 - 1 <= maxAlloc intSize.
Proof. unfold maxAlloc. destruct (intSize =? 32); lia. Qed.

Lemma make_ok {A} (intSize elemSize : Z) (zero : A) (n : Z) :
  0 <= n -> elemSize * n <= maxAlloc intSize ->
  make intSize elemSize zero n = Some (repeat zero (Z.to_nat n)).
Proof.
  intros H0 H1. unfold make.
  destruct (Z.ltb_spec n 0); [lia |].
  destruct (Z.ltb_spec (maxAlloc intSize) (elemSize * n)); [lia | reflexivity].
Qed.



(** A conversion to a signed integer never makes a number that is not
    negative larger. *)
Lemma sint_le (w x : Z) : 0 <= x -> sint w x <= x.
Proof.
  intros Hx. unfold sint.
  destruct (Z.lt_ge_cases 0 w) as [Hw | Hw].
  - assert (0 < 2 ^ (w - 1)) by (apply Z.pow_pos_nonneg; lia).
    assert (0 < 2 ^ w) by (apply Z.pow_pos_nonneg; lia).
    pose proof (Z.mod_le (x + 2 ^ (w - 1)) (2 ^ w) ltac:(lia) ltac:(lia)). lia.
  - rewrite (Z.pow_neg_r 2 (w - 1)) by lia.
    destruct (Z.eq_dec w 0) as [-> | Hn].
    + change (2 ^ 0) with 1. rewrite Z.mod_1_r. lia.
    + rewrite (Z.pow_neg_r 2 w) by lia. rewrite Z.mod_0_r. lia.
Qed.

(** A length prefix, once decoded, is never more than a [[]byte] may hold. *)
Lemma prefix_fits (intSize : Z) (p : list byte) :
  length p = 4%nat -> 1 * sint intSize (le_combine p) <= maxAlloc intSize.
Proof.
  intros Hp. pose proof (le_combine_bound p) as Hb. rewrite Hp in Hb.
  pose proof (sint_le intSize (le_combine p) ltac:(lia)).
  pose proof (maxAlloc_ge intSize). lia.
Qed.

(** ** Strings *)

Section Strings.
Context {S : Type}.
Variable intSize : Z.

(** The prefix announces [len body] and the body is there. *)
Lemma ReadString_ok (m : MdasIO S) (p body rest : list byte) :
  wf m -> length p = 4%nat -> sint intSize (le_combine p) = len body ->
  r m = p ++ body ++ rest ->
  ReadString intSize m = Ret ((body, None), advance m p rest).
Proof.
  intros Hm Hp HL Hr. unfold ReadString, try, bind.
  rewrite (ReadInt_ok intSize m p (body ++ rest) Hm Hp Hr). cbv beta iota.
  pose proof (prefix_fits intSize p Hp) as Hfit.
  rewrite make_ok by (unfold len in HL; lia).
  rewrite HL. unfold len. rewrite Nat2Z.id. unfold readInto, advance. cbn [r w buf].
  rewrite io_ReadFull_ok by apply repeat_length. reflexivity.
Qed.


(** The stream ends inside the body. *)
Lemma ReadString_short_body (m : MdasIO S) (p body : list byte) :
  wf m -> length p = 4%nat -> len body < sint intSize (le_combine p) ->
  r m = p ++ body ->
  exists e m', ReadString intSize m = Ret (([], Some e), m') /\ truncation e /\
               wf m'.
Proof.
  intros Hm Hp HL Hr. unfold ReadString, try, bind.
  rewrite (ReadInt_ok intSize m p body Hm Hp Hr). cbv beta iota.
  pose proof (prefix_fits intSize p Hp) as Hfit. unfold len in HL.
  rewrite make_ok by lia.
  unfold readInto, advance. cbn [r w buf].
  destruct (io_ReadFull_short body
              (repeat Byte.x00 (Z.to_nat (sint intSize (le_combine p)))))
    as (b' & e & rd' & E & He & _); [rewrite repeat_length; lia |].
  rewrite E. eexists e, _. split; [reflexivity |]. split; [exact He |].
  unfold wf. cbn [buf]. rewrite length_overwrite; [exact Hm | rewrite Hp, Hm; lia].
Qed.

(** The stream ends inside the prefix. *)
Lemma ReadString_short_prefix (m : MdasIO S) :
  wf m -> (length (r m) < 4)%nat ->
  exists e m', ReadString intSize m = Ret (([], Some e), m') /\ truncation e /\
               wf m'.
Proof.
  intros Hm Hr. unfold ReadString, try, bind.
  destruct (ReadInt_short intSize m Hm Hr) as (e & m' & E & He & Hm').
  rewrite E. exists e, m'. auto.
Qed.

Hypothesis intSize_32_64 : intSize = 32 \/ intSize = 64.

(** The prefix [WriteString] writes for a string shorter than 2^31 bytes
    decodes to that length. *)
Lemma prefix_decodes (v : list byte) :
  len v < 2 ^ 31 ->
  sint intSize (le_combine (le_split 4 (uint 32 (len v)))) = len v.
Proof.
  intros Hv. assert (0 <= len v) by (unfold len; lia).
  rewrite le_combine_split_uint by reflexivity.
  rewrite uint_small by lia.
  destruct intSize_32_64 as [-> | ->]; apply sint_small; lia.
Qed.

Lemma ReadString_encoded (m : MdasIO S) (v rest : list byte) :
  wf m -> len v < 2 ^ 31 ->
  r m = (le_split 4 (uint 32 (len v)) ++ v) ++ rest ->
  ReadString intSize m
  = Ret ((v, None), advance m (le_split 4 (uint 32 (len v))) rest).
Proof.
  intros Hm Hv Hr.
  apply ReadString_ok;
    [exact Hm | apply length_le_split | apply prefix_decodes; exact Hv
    | rewrite Hr, <- app_assoc; reflexivity].
Qed.

End Strings.

(** ** Round trips of the fixed-width scalars *)

Lemma decoder_stream (bytes : list byte) : r (decoder bytes) = bytes ++ [].
Proof. symmetry. apply app_nil_r. Qed.

Lemma wf_decoder (bytes : list byte) : wf (decoder bytes).
Proof. reflexivity. Qed.

Lemma roundtrip_Bool (v : bool) :
  value (ReadBool (decoder (written (WriteBool v encoder)))) = Some (v, None).
Proof. destruct v; reflexivity. Qed.

Lemma roundtrip_Int16 (v : Z) :
  - 2 ^ 15 <= v < 2 ^ 15 ->
  value (ReadInt16 (decoder (written (WriteInt16 v encoder)))) = Some (v, None).
Proof.
  intros Hv. rewrite WriteInt16_Buffer. cbn [written emit w contents encoder
    NewMdasIO app].
  rewrite (ReadInt16_ok (decoder (le_split 2 (uint 16 v))) (le_split 2 (uint 16 v)) []
             (wf_decoder _) (length_le_split _ _) (decoder_stream _)).
  cbn [value]. rewrite le_combine_split_uint by reflexivity.
  rewrite sint_uint by lia. reflexivity.
Qed.

Lemma roundtrip_Int64 (v : Z) :
  - 2 ^ 63 <= v < 2 ^ 63 ->
  value (ReadInt64 (decoder (written (WriteInt64 v encoder)))) = Some (v, None).
Proof.
  intros Hv. rewrite WriteInt64_Buffer. cbn [written emit w contents encoder
    NewMdasIO app].
  rewrite (ReadInt64_ok (decoder (le_split 8 (uint 64 v))) (le_split 8 (uint 64 v)) []
             (wf_decoder _) (length_le_split _ _) (decoder_stream _)).
  cbn [value]. rewrite le_combine_split_uint by reflexivity.
  rewrite sint_uint by lia. reflexivity.
Qed.

Lemma roundtrip_Float (v : float32) :
  0 <= Float32bits v < 2 ^ 32 ->
  value (ReadFloat (decoder (written (WriteFloat v encoder)))) = Some (v, None).
Proof.
  intros Hv. rewrite WriteFloat_Buffer. cbn [written emit w contents encoder
    NewMdasIO app].
  rewrite (ReadFloat_ok (decoder (le_split 4 (Float32bits v))) (le_split 4 (Float32bits v)) []
             (wf_decoder _) (length_le_split _ _) (decoder_stream _)).
  cbn [value]. rewrite le_combine_split.
  rewrite Z.mod_small by exact Hv. destruct v; reflexivity.
Qed.

(** On a platform whose [int] has 32 bits every 32-bit value comes back. *)
Lemma roundtrip_Int_32 (v : Z) :
  - 2 ^ 31 <= v < 2 ^ 31 ->
  value (ReadInt 32 (decoder (written (WriteInt v encoder)))) = Some (v, None).
Proof.
  intros Hv. rewrite WriteInt_Buffer. cbn [written emit w contents encoder
    NewMdasIO app].
  rewrite (ReadInt_ok 32 (decoder (le_split 4 (uint 32 v))) (le_split 4 (uint 32 v)) []
             (wf_decoder _) (length_le_split _ _) (decoder_stream _)).
  cbn [value]. rewrite le_combine_split_uint by reflexivity.
  rewrite sint_uint by lia. reflexivity.
Qed.

(** With a 64-bit [int] the four bytes come back as [uint32(v)]: [v] itself
    when it is not negative, [v + 2^32] when it is. *)
Lemma roundtrip_Int_64 (v : Z) :
  - 2 ^ 31 <= v < 2 ^ 31 ->
  value (ReadInt 64 (decoder (written (WriteInt v encoder))))
  = Some (if v <? 0 then v + 2 ^ 32 else v, None).
Proof.
  intros Hv. rewrite WriteInt_Buffer. cbn [written emit w contents encoder
    NewMdasIO app].
  rewrite (ReadInt_ok 64 (decoder (le_split 4 (uint 32 v))) (le_split 4 (uint 32 v)) []
             (wf_decoder _) (length_le_split _ _) (decoder_stream _)).
  cbn [value]. rewrite le_combine_split_uint by reflexivity.
  assert (Hu : uint 32 v = if v <? 0 then v + 2 ^ 32 else v).
  { unfold uint. destruct (Z.ltb_spec v 0).
    - rewrite <- (Z_mod_plus_full v 1 (2 ^ 32)). rewrite Z.mod_small; lia.
    - apply Z.mod_small. lia. }
  rewrite Hu. rewrite sint_small; [reflexivity | lia |].
  destruct (Z.ltb_spec v 0); lia.
Qed.

(** C2.  Encoding -1 with [WriteInt] and decoding the four bytes with
    [ReadInt] on a platform whose [int] has 64 bits yields 4294967295, not
    -1: [ReadInt] converts the unsigned 32-bit word straight to [int]
    without going through a signed 32-bit value, while [ReadInt16] and
    [ReadInt64] do convert to the signed type of their width. *)
Theorem ReadInt_WriteInt_minus_one :
  written (WriteInt (-1) encoder) = [Byte.xff; Byte.xff; Byte.xff; Byte.xff] /\
  value (ReadInt 64 (decoder (written (WriteInt (-1) encoder))))
  = Some (4294967295, None) /\
  value (ReadInt16 (decoder (written (WriteInt16 (-1) encoder))))
  = Some (-1, None) /\
  value (ReadInt64 (decoder (written (WriteInt64 (-1) encoder))))
  = Some (-1, None).
Proof. repeat split; vm_compute; reflexivity. Qed.

(** ** Timestamps *)

(** C8.  [WriteDate] writes the timestamp's whole seconds since the Unix
    epoch as eight little-endian bytes of a signed 64-bit integer, and
    [ReadDate] turns those eight bytes back into the timestamp truncated to
    whole seconds, leaving nothing unread. *)
Theorem ReadDate_WriteDate (t : Time) :
  - 2 ^ 63 <= unixSec t < 2 ^ 63 ->
  let bytes := written (WriteDate t encoder) in
  length bytes = 8%nat /\
  sint 64 (le_combine bytes) = unixSec t /\
  value (ReadDate (decoder bytes)) = Some (truncateToSecond t, None) /\
  unread (ReadDate (decoder bytes)) = [].
Proof.
  intros Ht. unfold WriteDate, Time_Unix. rewrite WriteInt64_Buffer.
  cbn [written emit w contents encoder NewMdasIO app]. cbv zeta.
  assert (Hs : sint 64 (le_combine (le_split 8 (uint 64 (unixSec t)))) = unixSec t).
  { rewrite le_combine_split_uint by reflexivity. apply sint_uint; lia. }
  split; [apply length_le_split |]. split; [exact Hs |].
  unfold ReadDate, try, bind.
  rewrite (ReadInt64_ok (decoder (le_split 8 (uint 64 (unixSec t)))) (le_split 8 (uint 64 (unixSec t))) []
             (wf_decoder _) (length_le_split _ _) (decoder_stream _)).
  cbv beta iota. rewrite Hs. unfold ret, time_Unix, truncateToSecond.
  cbn [value unread advance r]. rewrite Z.add_0_r. split; reflexivity.
Qed.

Lemma ReadDate_WriteDate_witness :
  let t := mkTime (-5) 999999999 in
  let bytes := written (WriteDate t encoder) in
  length bytes = 8%nat /\
  sint 64 (le_combine bytes) = -5 /\
  value (ReadDate (decoder bytes)) = Some (mkTime (-5) 0, None) /\
  unread (ReadDate (decoder bytes)) = [].
Proof. apply (ReadDate_WriteDate (mkTime (-5) 999999999)). simpl. lia. Defined.

(** ** Strings: round trip and the length prefix *)

(** C4.  A byte string shorter than 2^31 bytes (empty, one byte, ten
    thousand bytes; any byte values, zero bytes included) written by
    [WriteString] into a buffer and read back by [ReadString] comes back
    as the same bytes, with no error and nothing left unread. *)
Theorem ReadString_WriteString (intSize : Z) (fuel : nat) (v : list byte) :
  intSize = 32 \/ intSize = 64 ->
  len v < 2 ^ 31 ->
  let enc := WriteString (Datatypes.S fuel) v encoder in
  let dec := ReadString intSize (decoder (written enc)) in
  value enc = Some None /\ value dec = Some (v, None) /\ unread dec = [].
Proof.
  intros Hi Hv. cbv zeta. rewrite WriteString_Buffer.
  cbn [written value emit w contents encoder NewMdasIO app]. cbv zeta.
  rewrite (ReadString_encoded intSize Hi (decoder _) v []
             (wf_decoder _) Hv (decoder_stream _)).
  repeat split.
Qed.

Lemma ReadString_WriteString_witness :
  let v := [Byte.x00; Byte.x41; Byte.x00; Byte.xff] in
  let enc := WriteString 1 v encoder in
  let dec := ReadString 64 (decoder (written enc)) in
  value enc = Some None /\ value dec = Some (v, None) /\ unread dec = [].
Proof.
  apply (ReadString_WriteString 64 0 [Byte.x00; Byte.x41; Byte.x00; Byte.xff]).
  - right. reflexivity.
  - vm_compute. reflexivity.
Defined.

Lemma sint64_prefix (p : list byte) :
  length p = 4%nat -> sint 64 (le_combine p) = le_combine p.
Proof.
  intros Hp. pose proof (le_combine_bound p) as Hb. rewrite Hp in Hb.
  apply sint_small; lia.
Qed.




(** ** Units *)

Section Units.
Context {S : Type}.
Variable intSize : Z.

(** The three reads happen in the order id, name, type, and the first
    one that fails ends the call with its error. *)
Lemma ReadUnit_abort_id (m m1 : MdasIO S) (x : list byte) (e : error) :
  ReadString intSize m = Ret ((x, Some e), m1) ->
  ReadUnit intSize m = Ret ((mkUnit x [] [], Some e), m1).
Proof. intros E. unfold ReadUnit, try, bind. rewrite E. reflexivity. Qed.

Lemma ReadUnit_abort_name (m m1 m2 : MdasIO S) (a x : list byte) (e : error) :
  ReadString intSize m = Ret ((a, None), m1) ->
  ReadString intSize m1 = Ret ((x, Some e), m2) ->
  ReadUnit intSize m = Ret ((mkUnit a x [], Some e), m2).
Proof.
  intros E1 E2. unfold ReadUnit, try, bind. rewrite E1. cbv beta iota.
  rewrite E2. reflexivity.
Qed.

Lemma ReadUnit_abort_type (m m1 m2 m3 : MdasIO S) (a b x : list byte) (e : error) :
  ReadString intSize m = Ret ((a, None), m1) ->
  ReadString intSize m1 = Ret ((b, None), m2) ->
  ReadString intSize m2 = Ret ((x, Some e), m3) ->
  ReadUnit intSize m = Ret ((mkUnit a b x, Some e), m3).
Proof.
  intros E1 E2 E3. unfold ReadUnit, try, bind. rewrite E1. cbv beta iota.
  rewrite E2. cbv beta iota. rewrite E3. reflexivity.
Qed.

Lemma ReadUnit_all (m m1 m2 m3 : MdasIO S) (a b c : list byte) :
  ReadString intSize m = Ret ((a, None), m1) ->
  ReadString intSize m1 = Ret ((b, None), m2) ->
  ReadString intSize m2 = Ret ((c, None), m3) ->
  ReadUnit intSize m = Ret ((mkUnit a b c, None), m3).
Proof.
  intros E1 E2 E3. unfold ReadUnit, try, bind. rewrite E1. cbv beta iota.
  rewrite E2. cbv beta iota. rewrite E3. reflexivity.
Qed.

Hypothesis intSize_32_64 : intSize = 32 \/ intSize = 64.

Lemma ReadString_wire (m : MdasIO S) (v rest : list byte) :
  wf m -> len v < 2 ^ 31 -> r m = wireString v ++ rest ->
  exists m', ReadString intSize m = Ret ((v, None), m') /\ r m' = rest /\
             wf m' /\ w m' = w m.
Proof.
  intros Hm Hv Hr. eexists. split.
  - apply (ReadString_encoded intSize intSize_32_64 m v rest Hm Hv Hr).
  - repeat split. apply wf_advance; [exact Hm |].
    rewrite length_le_split. lia.
Qed.

Lemma ReadUnit_wire (m : MdasIO S) (u : Unit) (rest : list byte) :
  wf m -> unitFits u -> r m = wireUnit u ++ rest ->
  exists m', ReadUnit intSize m = Ret ((u, None), m') /\ r m' = rest /\
             wf m' /\ w m' = w m.
Proof.
  intros Hm (Ha & Hb & Hc) Hr. destruct u as [a b c]. cbn [Id Name Type_] in *.
  unfold wireUnit in Hr. cbn [Id Name Type_] in Hr.
  rewrite <- !app_assoc in Hr.
  destruct (ReadString_wire m a _ Hm Ha Hr) as (m1 & E1 & R1 & W1 & S1).
  destruct (ReadString_wire m1 b _ W1 Hb R1) as (m2 & E2 & R2 & W2 & S2).
  destruct (ReadString_wire m2 c _ W2 Hc R2) as (m3 & E3 & R3 & W3 & S3).
  exists m3. split; [apply (ReadUnit_all m m1 m2 m3); assumption |].
  repeat split; try assumption. congruence.
Qed.

End Units.

Lemma writeUnit_Buffer (fuel : nat) (u : Unit) (m : MdasIO Buffer) :
  exists scratch,
    writeUnit (Datatypes.S fuel) u m = Ret (None, emit m (wireUnit u) scratch).
Proof.
  unfold writeUnit, andThen, bind. rewrite WriteString_Buffer. cbv beta iota zeta.
  rewrite WriteString_Buffer. cbv beta iota zeta.
  rewrite WriteString_Buffer. cbv beta iota zeta.
  eexists. unfold emit, wireUnit, wireString. cbn [r w buf contents].
  rewrite <- !app_assoc. reflexivity.
Qed.

(** C7.  [ReadUnit] reads three length-prefixed strings in the order id,
    name, type; a read that fails ends the call with that read's error and
    no further read; and two units encoded one after the other are decoded
    by two calls, the first leaving exactly the second unit's bytes unread
    and the second leaving nothing. *)
Theorem ReadUnit_in_order (intSize : Z) (fuel : nat) (u1 u2 : Unit) :
  intSize = 32 \/ intSize = 64 ->
  unitFits u1 -> unitFits u2 ->
  (forall (S : Type) (m : MdasIO S) (rest : list byte),
      wf m ->
      r m = wireString (Id u1) ++ wireString (Name u1) ++ wireString (Type_ u1)
              ++ rest ->
      value (ReadUnit intSize m) = Some (u1, None) /\
      unread (ReadUnit intSize m) = rest) /\
  (forall (S : Type) (m m1 m2 m3 : MdasIO S) (a b x : list byte) (e : error),
      (ReadString intSize m = Ret ((x, Some e), m1) ->
       ReadUnit intSize m = Ret ((mkUnit x [] [], Some e), m1)) /\
      (ReadString intSize m = Ret ((a, None), m1) ->
       ReadString intSize m1 = Ret ((x, Some e), m2) ->
       ReadUnit intSize m = Ret ((mkUnit a x [], Some e), m2)) /\
      (ReadString intSize m = Ret ((a, None), m1) ->
       ReadString intSize m1 = Ret ((b, None), m2) ->
       ReadString intSize m2 = Ret ((x, Some e), m3) ->
       ReadUnit intSize m = Ret ((mkUnit a b x, Some e), m3))) /\
  (let enc := andThen (writeUnit (Datatypes.S fuel) u1)
                (writeUnit (Datatypes.S fuel) u2) encoder in
   value enc = Some None /\
   exists m1 m2,
     ReadUnit intSize (decoder (written enc)) = Ret ((u1, None), m1) /\
     r m1 = written (writeUnit (Datatypes.S fuel) u2 encoder) /\
     ReadUnit intSize m1 = Ret ((u2, None), m2) /\
     r m2 = []).
Proof.
  intros Hi H1 H2. split; [| split].
  - intros S m rest Hm Hr.
    destruct (ReadUnit_wire intSize Hi m u1 rest Hm H1) as (m' & E & R & _).
    + unfold wireUnit. rewrite <- !app_assoc. exact Hr.
    + rewrite E. split; [reflexivity | exact R].
  - intros S m m1 m2 m3 a b x e. split; [| split].
    + apply ReadUnit_abort_id.
    + apply ReadUnit_abort_name.
    + apply ReadUnit_abort_type.
  - cbv zeta.
    destruct (writeUnit_Buffer fuel u1 encoder) as (s1 & E1).
    destruct (writeUnit_Buffer fuel u2 (emit encoder (wireUnit u1) s1)) as (s2 & E2).
    destruct (writeUnit_Buffer fuel u2 encoder) as (s3 & E3).
    assert (E : andThen (writeUnit (Datatypes.S fuel) u1)
                  (writeUnit (Datatypes.S fuel) u2) encoder
                = Ret (None, emit (emit encoder (wireUnit u1) s1) (wireUnit u2) s2)).
    { unfold andThen, bind. rewrite E1. cbv beta iota. exact E2. }
    rewrite E, E3.
    cbn [written value emit w contents encoder NewMdasIO app r].
    split; [reflexivity |].
    destruct (ReadUnit_wire intSize Hi (decoder (wireUnit u1 ++ wireUnit u2)) u1
                (wireUnit u2) (wf_decoder _) H1 eq_refl) as (m1 & D1 & R1 & W1 & _).
    destruct (ReadUnit_wire intSize Hi m1 u2 [] W1 H2) as (m2 & D2 & R2 & _).
    { rewrite R1. symmetry. apply app_nil_r. }
    exists m1, m2. repeat split; assumption.
Qed.

Lemma ReadUnit_in_order_witness :
  let u1 := mkUnit [Byte.x61] [Byte.x62; Byte.x00] [] in
  let u2 := mkUnit [] [Byte.x63] [Byte.x64; Byte.x65] in
  let enc := andThen (writeUnit 1 u1) (writeUnit 1 u2) encoder in
  value enc = Some None /\
  exists m1 m2,
    ReadUnit 64 (decoder (written enc)) = Ret ((u1, None), m1) /\
    r m1 = written (writeUnit 1 u2 encoder) /\
    ReadUnit 64 m1 = Ret ((u2, None), m2) /\
    r m2 = [].
Proof.
  apply (ReadUnit_in_order 64 0
           (mkUnit [Byte.x61] [Byte.x62; Byte.x00] [])
           (mkUnit [] [Byte.x63] [Byte.x64; Byte.x65])).
  - right. reflexivity.
  - vm_compute. repeat split.
  - vm_compute. repeat split.
Defined.

(** ** The retrying writer *)

Section Retrying.
Context {S : Type} {W : Writer S}.

Lemma writeAll_nil (fuel : nat) (m : MdasIO S) :
  writeAll fuel [] m = Ret (None, m).
Proof. destruct fuel; reflexivity. Qed.

(** One turn of the loop. *)
Lemma writeAll_step (fuel : nat) (b : list byte) (m : MdasIO S) :
  b <> [] ->
  writeAll (Datatypes.S fuel) b m
  = let s' := snd (Write (w m) b) in
    match snd (fst (Write (w m) b)) with
    | Some e => Ret (Some e, mkMdasIO (r m) s' (buf m))
    | None =>
        match slice b (fst (fst (Write (w m) b))) (len b) with
        | None => Panic SliceBoundsOutOfRange
        | Some b' => writeAll fuel b' (mkMdasIO (r m) s' (buf m))
        end
    end.
Proof.
  intros Hb. destruct b as [| x b]; [congruence |].
  cbn [writeAll]. unfold bind, sinkWrite.
  destruct (Write (w m) (x :: b)) as [[n [e |]] s]; cbn [fst snd]; [reflexivity |].
  destruct (slice (x :: b) n (len (x :: b))); reflexivity.
Qed.

Lemma slice_rest (b b' : list byte) (n : Z) :
  slice b n (len b) = Some b' ->
  0 <= n <= len b /\ b' = skipn (Z.to_nat n) b.
Proof.
  unfold slice, len. intros H.
  destruct (Z.leb_spec 0 n); [| discriminate].
  destruct (Z.leb_spec n (Z.of_nat (length b))); [| discriminate].
  rewrite Z.leb_refl in H. cbn [andb] in H. injection H as <-.
  split; [lia |]. apply firstn_all2. rewrite length_skipn. lia.
Qed.

(** A bound that was enough stays enough. *)
Lemma writeAll_more_fuel (fuel : nat) :
  forall (b : list byte) (m : MdasIO S),
    writeAll fuel b m <> OutOfFuel ->
    writeAll (Datatypes.S fuel) b m = writeAll fuel b m.
Proof.
  induction fuel as [| fuel IH]; intros b m H.
  - destruct b; [reflexivity | exfalso; apply H; reflexivity].
  - destruct b as [| x b]; [reflexivity |].
    assert (Hb : x :: b <> []) by discriminate.
    rewrite (writeAll_step (Datatypes.S fuel) _ m Hb).
    rewrite (writeAll_step fuel _ m Hb) in H |- *. cbv zeta in H |- *.
    destruct (snd (fst (Write (w m) (x :: b)))); [reflexivity |].
    destruct (slice (x :: b) (fst (fst (Write (w m) (x :: b)))) (len (x :: b)));
      [| reflexivity].
    apply IH. exact H.
Qed.

(** If every call makes progress, [len b] turns are enough. *)
Lemma writeAll_progress (Hp : progresses S) (fuel : nat) :
  forall (b : list byte) (m : MdasIO S),
    (length b <= fuel)%nat -> writeAll fuel b m <> OutOfFuel.
Proof.
  induction fuel as [| fuel IH]; intros b m Hl.
  - destruct b; [discriminate | simpl in Hl; lia].
  - destruct b as [| x b]; [discriminate |].
    assert (Hb : x :: b <> []) by discriminate.
    rewrite (writeAll_step fuel _ m Hb). cbv zeta.
    destruct (Hp (w m) (x :: b) Hb) as [He | Hn].
    + destruct (snd (fst (Write (w m) (x :: b)))); [discriminate | congruence].
    + destruct (snd (fst (Write (w m) (x :: b)))); [discriminate |].
      destruct (slice (x :: b) (fst (fst (Write (w m) (x :: b)))) (len (x :: b)))
        as [b' |] eqn:Es; [| discriminate].
      apply slice_rest in Es. destruct Es as [Hr ->].
      apply IH. rewrite length_skipn. unfold len in Hr. lia.
Qed.

Lemma slice_all (b : list byte) : slice b 0 (len b) = Some b.
Proof.
  unfold slice. rewrite !Z.leb_refl.
  assert (0 <= len b) by (unfold len; lia).
  destruct (Z.leb_spec 0 (len b)); [| lia].
  cbn [andb]. rewrite Z.sub_0_r. cbn [Z.to_nat skipn].
  unfold len. rewrite Nat2Z.id, firstn_all. reflexivity.
Qed.

(** If no call ever takes a byte or fails, no bound is enough. *)
Lemma writeAll_stalled (Hs : stalled S) (fuel : nat) :
  forall (b : list byte) (m : MdasIO S),
    b <> [] -> writeAll fuel b m = OutOfFuel.
Proof.
  induction fuel as [| fuel IH]; intros b m Hb.
  - destruct b; [congruence | reflexivity].
  - rewrite (writeAll_step fuel b m Hb). cbv zeta. rewrite (Hs (w m) b).
    cbn [fst snd]. rewrite slice_all. apply IH. exact Hb.
Qed.

End Retrying.

(** ** What the retrying writer asked of its sink *)

Section Recording.
Context {S : Type} {W : Writer S}.

Lemma Write_Recorder (s : Recorder S) (b : list byte) :
  Write s b
  = (fst (Write (inner s) b),
     mkRecorder (snd (Write (inner s) b))
       (calls s ++ [(b, fst (fst (Write (inner s) b)),
                     snd (fst (Write (inner s) b)))])).
Proof.
  cbv [Write Recorder_Writer].
  destruct (W (inner s) b) as [[n e] s']. reflexivity.
Qed.

(** Recording changes nothing in what the loop does. *)
Lemma writeAll_erase (fuel : nat) :
  forall (b : list byte) (m : MdasIO (Recorder S)),
    writeAll fuel b (forget m) = erase (writeAll fuel b m).
Proof.
  induction fuel as [| fuel IH]; intros b m.
  - destruct b; reflexivity.
  - destruct b as [| x b]; [reflexivity |].
    assert (Hb : x :: b <> []) by discriminate.
    rewrite !(writeAll_step fuel _ _ Hb). cbv zeta.
    rewrite Write_Recorder. cbn [fst snd forget w r buf inner].
    destruct (snd (fst (Write (inner (w m)) (x :: b)))); [reflexivity |].
    destruct (slice (x :: b) (fst (fst (Write (inner (w m)) (x :: b))))
                (len (x :: b))); [| reflexivity].
    rewrite <- IH. reflexivity.
Qed.

(** The calls of a run that returned: with a [nil] result no call
    reported an error and the bytes taken, call after call, are the whole
    of [b]; with an error, it is the error of the last call, and no
    earlier call reported one. *)
Lemma writeAll_log (fuel : nat) :
  forall (b : list byte) (m m' : MdasIO (Recorder S)) (res : option error),
    writeAll fuel b m = Ret (res, m') ->
    exists new,
      calls (w m') = calls (w m) ++ new /\
      match res with
      | None =>
          Forall (fun c => errOf c = None) new /\ concat (map tookOf new) = b
      | Some e =>
          exists old b' n,
            new = old ++ [(b', n, Some e)] /\
            Forall (fun c => errOf c = None) old
      end.
Proof.
  induction fuel as [| fuel IH]; intros b m m' res H.
  - destruct b; [| discriminate]. injection H as <- <-.
    exists []. rewrite app_nil_r. auto.
  - destruct b as [| x b].
    { injection H as <- <-. exists []. rewrite app_nil_r. auto. }
    assert (Hb : x :: b <> []) by discriminate.
    rewrite (writeAll_step fuel _ _ Hb) in H. cbv zeta in H.
    rewrite Write_Recorder in H. cbn [fst snd] in H.
    set (n := fst (fst (Write (inner (w m)) (x :: b)))) in *.
    destruct (snd (fst (Write (inner (w m)) (x :: b)))) as [e |].
    + injection H as <- <-. cbn [w calls].
      exists [(x :: b, n, Some e)]. split; [reflexivity |].
      exists [], (x :: b), n. auto.
    + destruct (slice (x :: b) n (len (x :: b))) as [b' |] eqn:Es;
        [| discriminate].
      apply slice_rest in Es. destruct Es as [Hn ->].
      destruct (IH _ _ _ _ H) as (new & Hc & Hres). cbn [w calls] in Hc.
      exists ((x :: b, n, None) :: new). split.
      { rewrite Hc, <- app_assoc. reflexivity. }
      destruct res as [e |].
      * destruct Hres as (old & b' & n' & -> & Hold).
        exists ((x :: b, n, None) :: old), b', n'. split; [reflexivity |].
        constructor; [reflexivity | exact Hold].
      * destruct Hres as [Hall Hcat]. split.
        { constructor; [reflexivity | exact Hall]. }
        cbn [map concat]. rewrite Hcat. unfold tookOf. cbn [fst snd].
        apply firstn_skipn.
Qed.

End Recording.

Lemma writeAll_Stalling (k : nat) :
  forall (b : list byte) (m : MdasIO Stalling),
    stalls (w m) = k -> writeAll (Datatypes.S k) b m <> OutOfFuel.
Proof.
  induction k as [| k IH]; intros b m Hk.
  - destruct b as [| x b]; [discriminate |].
    assert (Hb : x :: b <> []) by discriminate.
    rewrite (writeAll_step 0 _ m Hb). cbv zeta.
    cbv [Write Stalling_Writer]. rewrite Hk. cbn [fst snd].
    rewrite slice_tail. discriminate.
  - destruct b as [| x b]; [discriminate |].
    assert (Hb : x :: b <> []) by discriminate.
    rewrite (writeAll_step (Datatypes.S k) _ m Hb). cbv zeta.
    cbv [Write Stalling_Writer]. rewrite Hk. cbn [fst snd].
    rewrite slice_all. apply IH. reflexivity.
Qed.

(** C10, as the code has it.  [writeAll] terminates when every [Write]
    call of its sink returns an error or reports at least one byte; and on
    a sink whose every call reports zero bytes and no error, a call with a
    non-empty [b] never returns. *)
Theorem writeAll_termination {S : Type} {W : Writer S} (b : list byte)
    (m : MdasIO S) :
  (progresses S -> terminates (fun fuel => writeAll fuel b m)) /\
  (stalled S -> b <> [] -> diverges (fun fuel => writeAll fuel b m)).
Proof.
  split.
  - intros Hp. exists (length b). apply writeAll_progress; [exact Hp | lia].
  - intros Hs Hb fuel. apply writeAll_stalled; assumption.
Qed.

Lemma writeAll_termination_witness :
  terminates (fun fuel => writeAll fuel [Byte.x41; Byte.x42] encoder) /\
  diverges (fun fuel => writeAll fuel [Byte.x41; Byte.x42] (NewMdasIO [] stuck)).
Proof.
  split.
  - apply (writeAll_termination [Byte.x41; Byte.x42] encoder).
    intros s b Hb. right. destruct b; [congruence |].
    cbv [Write Buffer_Writer len fst snd]. simpl. lia.
  - apply (writeAll_termination [Byte.x41; Byte.x42] (NewMdasIO [] stuck)).
    + intros s b. reflexivity.
    + discriminate.
Defined.

(** C10, as stated, fails in the "only if" direction.  On a sink that
    reports zero bytes and no error once and takes everything afterwards,
    [writeAll] makes the call again and returns: the log shows the call
    that wrote nothing, and the run is over after two calls.  So every run
    on such a sink terminates although not every [Write] call of the sink
    returns an error or writes a byte. *)
Lemma writeAll_outlasts_a_stall :
  (exists m',
      writeAll 2 [Byte.x41] (NewMdasIO [] (mkRecorder (mkStalling 1 []) []))
      = Ret (None, m') /\
      calls (w m') = [([Byte.x41], 0, None); ([Byte.x41], 1, None)]) /\
  ~ ((forall (b : list byte) (m : MdasIO Stalling),
         terminates (fun fuel => writeAll fuel b m)) ->
     progresses Stalling).
Proof.
  split.
  - eexists. split; vm_compute; reflexivity.
  - intros H.
    assert (Ht : forall (b : list byte) (m : MdasIO Stalling),
               terminates (fun fuel => writeAll fuel b m)).
    { intros b m. exists (Datatypes.S (stalls (w m))).
      apply writeAll_Stalling. reflexivity. }
    specialize (H Ht (mkStalling 1 []) [Byte.x41]).
    destruct H as [H | H]; [discriminate | | ].
    + apply H. reflexivity.
    + vm_compute in H. apply H. reflexivity.
Qed.

(** ** Encoding a grid: the index accesses *)

Section GridIndexing.
Context {S : Type} {W : Writer S}.
Variable intSize : Z.










End GridIndexing.

(** ** Encoding a grid into a [Buffer] *)

Section GridEncoding.
Variable intSize : Z.
Hypothesis intSize_32_64 : intSize = 32 \/ intSize = 64.

Lemma int_small (x : Z) : - 2 ^ 31 <= x < 2 ^ 31 -> sint intSize x = x.
Proof. intros Hx. destruct intSize_32_64 as [-> | ->]; apply sint_small; lia. Qed.

Lemma slice_in {A} (b : list A) (lo hi : Z) :
  0 <= lo <= hi -> hi <= len b -> exists bs, slice b lo hi = Some bs.
Proof.
  intros H1 H2. unfold slice.
  destruct (Z.leb_spec 0 lo); [| lia].
  destruct (Z.leb_spec lo hi); [| lia].
  destruct (Z.leb_spec hi (len b)); [| lia]. cbn [andb]. eauto.
Qed.






End GridEncoding.




(** C1.  The grid of the spec's scenario (2 rows, 3 columns) is written
    without error, and [ReadGrid] on the bytes written panics: the row is
    read into [rowBuf] but the floats are taken from [m.buf[4*j : 4*j+4]],
    and the 8-byte scratch buffer has no bytes 8..12.  With one row and
    one column no panic occurs and the cell that comes back is [StepLon],
    the last value decoded through the scratch buffer, not the cell that
    was written. *)
Theorem ReadGrid_WriteGrid_scenario :
  value (WriteGrid 64 1 scenario encoder) = Some None /\
  ReadGrid 64 (decoder (written (WriteGrid 64 1 scenario encoder)))
  = Panic SliceBoundsOutOfRange /\
  ReadGrid 32 (decoder (written (WriteGrid 32 1 scenario encoder)))
  = Panic SliceBoundsOutOfRange /\
  value (WriteGrid 64 1 single encoder) = Some None /\
  value (ReadGrid 64 (decoder (written (WriteGrid 64 1 single encoder))))
  = Some (mkGrid (header single) [[StepLon (header single)]], None) /\
  Data single <> [[StepLon (header single)]].
Proof.
  repeat split; try (vm_compute; reflexivity).
  vm_compute. discriminate.
Qed.

(** ** Strings from a stream that ends too early *)

Lemma strictPrefix_app (s a b : list byte) :
  strictPrefix s (a ++ b) ->
  strictPrefix s a \/ exists s', s = a ++ s' /\ strictPrefix s' b.
Proof.
  intros (k & Hk & ->). rewrite length_app in Hk. rewrite firstn_app.
  destruct (Nat.lt_ge_cases k (length a)) as [Hlt | Hge].
  - left. exists k. split; [exact Hlt |].
    replace (k - length a)%nat with 0%nat by lia. cbn [firstn].
    apply app_nil_r.
  - right. exists (firstn (k - length a) b). split.
    + rewrite firstn_all2 by lia. reflexivity.
    + exists (k - length a)%nat. split; [lia | reflexivity].
Qed.

Lemma strictPrefix_length (s full : list byte) :
  strictPrefix s full -> (length s < length full)%nat.
Proof. intros (k & Hk & ->). rewrite length_firstn. lia. Qed.

Section Truncation.
Context {S : Type}.
Variable intSize : Z.

Hypothesis intSize_32_64 : intSize = 32 \/ intSize = 64.

Lemma ReadString_truncated (m : MdasIO S) (v : list byte) :
  wf m -> len v < 2 ^ 31 -> strictPrefix (r m) (wireString v) ->
  failsWith [] (ReadString intSize m).
Proof.
  intros Hm Hv Hs. unfold wireString in Hs.
  destruct (strictPrefix_app _ _ _ Hs) as [Hp | (body & Hr & Hb)].
  - apply strictPrefix_length in Hp. rewrite length_le_split in Hp.
    destruct (ReadString_short_prefix intSize m Hm Hp) as (e & m' & E & He & _).
    exists e, m'. auto.
  - apply strictPrefix_length in Hb.
    destruct (ReadString_short_body intSize m (le_split 4 (uint 32 (len v))) body)
      as (e & m' & E & He & _);
      [exact Hm | apply length_le_split
      | rewrite (prefix_decodes intSize intSize_32_64 v Hv); unfold len; lia
      | exact Hr |].
    exists e, m'. auto.
Qed.

End Truncation.

(** ** Decoding a grid: the header and the inner loop *)



Section GridDecoding.
Context {S : Type}.
Variable intSize : Z.
Hypothesis intSize_32_64 : intSize = 32 \/ intSize = 64.



End GridDecoding.

(** * Further properties of the codec *)

(** ** Scalars: round trips with more of the stream behind them *)

Lemma decoder_app (pre rest : list byte) : r (decoder (pre ++ rest)) = pre ++ rest.
Proof. reflexivity. Qed.

Lemma uint_sint (w x : Z) : 0 < w -> uint w (sint w x) = uint w x.
Proof.
  intros Hw. unfold uint, sint. rewrite Zminus_mod_idemp_l.
  f_equal. lia.
Qed.

(** [WriteBool] writes the byte 1 or 0 and [ReadBool] gives the value back,
    leaving what follows unread; and [ReadBool] takes any byte other than 0
    for [true]. *)
Theorem Bool_round_trip (v : bool) (b : byte) (rest : list byte) :
  (let o := ReadBool (decoder (written (WriteBool v encoder) ++ rest)) in
   value o = Some (v, None) /\ unread o = rest) /\
  (let o := ReadBool (decoder (b :: rest)) in
   value o = Some (negb (byte.unsigned b =? 0), None) /\ unread o = rest).
Proof.
  split; cbv zeta.
  - rewrite WriteBool_Buffer. cbn [written emit w contents encoder NewMdasIO app].
    rewrite (ReadBool_ok (decoder ((if v then Byte.x01 else Byte.x00) :: rest))
               [if v then Byte.x01 else Byte.x00] rest
               (wf_decoder _) eq_refl eq_refl).
    destruct v; split; reflexivity.
  - rewrite (ReadBool_ok (decoder (b :: rest)) [b] rest (wf_decoder _) eq_refl eq_refl).
    rewrite le_combine_1. split; reflexivity.
Qed.

(** [ReadInt16] gives back every 16-bit signed value [WriteInt16] wrote, in
    two bytes, and leaves what follows unread. *)
Theorem Int16_round_trip (v : Z) (rest : list byte) :
  - 2 ^ 15 <= v < 2 ^ 15 ->
  let bytes := written (WriteInt16 v encoder) in
  let o := ReadInt16 (decoder (bytes ++ rest)) in
  length bytes = 2%nat /\ value o = Some (v, None) /\ unread o = rest.
Proof.
  intros Hv. cbv zeta. rewrite WriteInt16_Buffer.
  cbn [written emit w contents encoder NewMdasIO app].
  rewrite (ReadInt16_ok (decoder (le_split 2 (uint 16 v) ++ rest))
             (le_split 2 (uint 16 v)) rest
             (wf_decoder _) (length_le_split _ _) eq_refl).
  cbn [value unread advance r].
  rewrite le_combine_split_uint by reflexivity. rewrite sint_uint by lia.
  repeat split; try apply length_le_split.
Qed.

Lemma Int16_round_trip_witness :
  let bytes := written (WriteInt16 (-32768) encoder) in
  let o := ReadInt16 (decoder (bytes ++ [Byte.x07])) in
  length bytes = 2%nat /\ value o = Some (-32768, None) /\ unread o = [Byte.x07].
Proof. apply (Int16_round_trip (-32768) [Byte.x07]). simpl. lia. Defined.

(** [ReadInt64] gives back every 64-bit signed value [WriteInt64] wrote, in
    eight bytes, and leaves what follows unread. *)
Theorem Int64_round_trip (v : Z) (rest : list byte) :
  - 2 ^ 63 <= v < 2 ^ 63 ->
  let bytes := written (WriteInt64 v encoder) in
  let o := ReadInt64 (decoder (bytes ++ rest)) in
  length bytes = 8%nat /\ value o = Some (v, None) /\ unread o = rest.
Proof.
  intros Hv. cbv zeta. rewrite WriteInt64_Buffer.
  cbn [written emit w contents encoder NewMdasIO app].
  rewrite (ReadInt64_ok (decoder (le_split 8 (uint 64 v) ++ rest))
             (le_split 8 (uint 64 v)) rest
             (wf_decoder _) (length_le_split _ _) eq_refl).
  cbn [value unread advance r].
  rewrite le_combine_split_uint by reflexivity. rewrite sint_uint by lia.
  repeat split; try apply length_le_split.
Qed.

Lemma Int64_round_trip_witness :
  let bytes := written (WriteInt64 (-9223372036854775808) encoder) in
  let o := ReadInt64 (decoder (bytes ++ [Byte.x07])) in
  length bytes = 8%nat /\ value o = Some (-9223372036854775808, None) /\
  unread o = [Byte.x07].
Proof.
  apply (Int64_round_trip (-9223372036854775808) [Byte.x07]). simpl. lia.
Defined.

(** [ReadFloat] gives back the bit pattern [WriteFloat] wrote, whatever the
    pattern (NaN payloads, infinities and the sign of zero included), in
    four bytes, and leaves what follows unread. *)
Theorem Float_round_trip (v : float32) (rest : list byte) :
  0 <= Float32bits v < 2 ^ 32 ->
  let bytes := written (WriteFloat v encoder) in
  let o := ReadFloat (decoder (bytes ++ rest)) in
  length bytes = 4%nat /\ value o = Some (v, None) /\ unread o = rest.
Proof.
  intros Hv. cbv zeta. rewrite WriteFloat_Buffer.
  cbn [written emit w contents encoder NewMdasIO app].
  rewrite (ReadFloat_ok (decoder (le_split 4 (Float32bits v) ++ rest))
             (le_split 4 (Float32bits v)) rest
             (wf_decoder _) (length_le_split _ _) eq_refl).
  cbn [value unread advance r].
  rewrite le_combine_split. rewrite Z.mod_small by exact Hv.
  destruct v. repeat split; try apply length_le_split.
Qed.

Lemma Float_round_trip_witness :
  let nan := Float32frombits 0x7FC00001 in
  let bytes := written (WriteFloat nan encoder) in
  let o := ReadFloat (decoder (bytes ++ [Byte.x07])) in
  length bytes = 4%nat /\ value o = Some (nan, None) /\ unread o = [Byte.x07].
Proof.
  apply (Float_round_trip (Float32frombits 0x7FC00001) [Byte.x07]). simpl. lia.
Defined.

(** Where [int] has 32 bits, [ReadInt] gives back every 32-bit signed value
    [WriteInt] wrote. *)
Theorem Int_round_trip_32 (v : Z) (rest : list byte) :
  - 2 ^ 31 <= v < 2 ^ 31 ->
  let bytes := written (WriteInt v encoder) in
  let o := ReadInt 32 (decoder (bytes ++ rest)) in
  length bytes = 4%nat /\ value o = Some (v, None) /\ unread o = rest.
Proof.
  intros Hv. cbv zeta. rewrite WriteInt_Buffer.
  cbn [written emit w contents encoder NewMdasIO app].
  rewrite (ReadInt_ok 32 (decoder (le_split 4 (uint 32 v) ++ rest))
             (le_split 4 (uint 32 v)) rest
             (wf_decoder _) (length_le_split _ _) eq_refl).
  cbn [value unread advance r].
  rewrite le_combine_split_uint by reflexivity. rewrite sint_uint by lia.
  repeat split; try apply length_le_split.
Qed.

Lemma Int_round_trip_32_witness :
  let bytes := written (WriteInt (-2147483648) encoder) in
  let o := ReadInt 32 (decoder (bytes ++ [Byte.x07])) in
  length bytes = 4%nat /\ value o = Some (-2147483648, None) /\
  unread o = [Byte.x07].
Proof. apply (Int_round_trip_32 (-2147483648) [Byte.x07]). simpl. lia. Defined.

(** Where [int] has 64 bits, [WriteInt] keeps the low 32 bits of any value
    and [ReadInt] returns them as a number from 0 to 2^32 - 1: what comes
    back is [v mod 2^32], never a negative number, and it is [v] exactly
    when [0 <= v < 2^32]. *)
Theorem Int_round_trip_64 (v : Z) (rest : list byte) :
  let bytes := written (WriteInt v encoder) in
  let o := ReadInt 64 (decoder (bytes ++ rest)) in
  length bytes = 4%nat /\ value o = Some (v mod 2 ^ 32, None) /\
  unread o = rest /\ (v mod 2 ^ 32 = v <-> 0 <= v < 2 ^ 32).
Proof.
  cbv zeta. rewrite WriteInt_Buffer.
  cbn [written emit w contents encoder NewMdasIO app].
  rewrite (ReadInt_ok 64 (decoder (le_split 4 (uint 32 v) ++ rest))
             (le_split 4 (uint 32 v)) rest
             (wf_decoder _) (length_le_split _ _) eq_refl).
  cbn [value unread advance r].
  rewrite le_combine_split_uint by reflexivity. unfold uint.
  pose proof (Z.mod_pos_bound v (2 ^ 32) ltac:(lia)) as Hb.
  rewrite sint_small by lia.
  split; [apply length_le_split |]. split; [reflexivity |].
  split; [reflexivity |]. split.
  - intros E. rewrite <- E. exact Hb.
  - intros H. apply Z.mod_small. exact H.
Qed.

Lemma Int_round_trip_64_witness :
  value (ReadInt 64 (decoder (written (WriteInt 4294967295 encoder) ++ [])))
  = Some (4294967295 mod 2 ^ 32, None) /\
  4294967295 mod 2 ^ 32 = 4294967295.
Proof.
  destruct (Int_round_trip_64 4294967295 []) as (_ & H & _ & Hiff).
  split; [exact H | apply Hiff; lia].
Defined.

(** A duration, a signed 64-bit count of nanoseconds, comes back from
    [ReadDuration] as [WriteDuration] wrote it. *)
Theorem Duration_round_trip (d : Duration) (rest : list byte) :
  - 2 ^ 63 <= d < 2 ^ 63 ->
  let bytes := written (WriteDuration d encoder) in
  let o := ReadDuration (decoder (bytes ++ rest)) in
  length bytes = 8%nat /\ value o = Some (d, None) /\ unread o = rest.
Proof.
  intros Hd. cbv zeta. unfold WriteDuration. rewrite WriteInt64_Buffer.
  cbn [written emit w contents encoder NewMdasIO app].
  unfold ReadDuration, try, bind.
  rewrite (ReadInt64_ok (decoder (le_split 8 (uint 64 d) ++ rest))
             (le_split 8 (uint 64 d)) rest
             (wf_decoder _) (length_le_split _ _) eq_refl).
  cbv beta iota. unfold ret. cbn [value unread advance r].
  rewrite le_combine_split_uint by reflexivity. rewrite sint_uint by lia.
  repeat split; try apply length_le_split.
Qed.

Lemma Duration_round_trip_witness :
  let bytes := written (WriteDuration (-1500000000) encoder) in
  let o := ReadDuration (decoder (bytes ++ [])) in
  length bytes = 8%nat /\ value o = Some (-1500000000, None) /\ unread o = [].
Proof. apply (Duration_round_trip (-1500000000) []). simpl. lia. Defined.

(** ** Points and geometries *)

Lemma WritePoint_Buffer (p : Point) (m : MdasIO Buffer) :
  exists scratch,
    WritePoint p m
    = Ret (None, emit m (le_split 4 (Float32bits (Lat p))
                           ++ le_split 4 (Float32bits (Lon p))) scratch).
Proof.
  unfold WritePoint, bind. rewrite WriteFloat_Buffer. cbv beta iota zeta.
  rewrite WriteFloat_Buffer. cbv zeta. eexists. unfold emit.
  cbn [r w buf contents]. rewrite <- app_assoc. reflexivity.
Qed.

Lemma ReadPoint_ok {S : Type} (m : MdasIO S) (c1 c2 rest : list byte) :
  wf m -> length c1 = 4%nat -> length c2 = 4%nat -> r m = c1 ++ c2 ++ rest ->
  exists m',
    ReadPoint m
    = Ret ((mkPoint (Float32frombits (le_combine c1))
              (Float32frombits (le_combine c2)), None), m') /\
    r m' = rest /\ wf m'.
Proof.
  intros Hm H1 H2 Hr. unfold ReadPoint, try, bind.
  rewrite (ReadFloat_ok m c1 (c2 ++ rest) Hm H1 Hr). cbv beta iota.
  assert (W1 : wf (advance m c1 (c2 ++ rest))) by (apply wf_advance; [exact Hm | lia]).
  rewrite (ReadFloat_ok _ c2 rest W1 H2 eq_refl). cbv beta iota.
  eexists. split; [reflexivity |]. split; [reflexivity |].
  apply wf_advance; [exact W1 | lia].
Qed.

(** [WritePoint] writes the latitude and then the longitude, eight bytes in
    all, and [ReadPoint] gives the point back, leaving what follows
    unread. *)
Theorem Point_round_trip (p : Point) (rest : list byte) :
  0 <= Float32bits (Lat p) < 2 ^ 32 ->
  0 <= Float32bits (Lon p) < 2 ^ 32 ->
  let enc := WritePoint p encoder in
  let o := ReadPoint (decoder (written enc ++ rest)) in
  value enc = Some None /\
  written enc = le_split 4 (Float32bits (Lat p)) ++ le_split 4 (Float32bits (Lon p)) /\
  value o = Some (p, None) /\ unread o = rest.
Proof.
  intros Hlat Hlon. cbv zeta.
  destruct (WritePoint_Buffer p encoder) as (scratch & E). rewrite E.
  cbn [written value emit w contents encoder NewMdasIO app].
  split; [reflexivity |]. split; [reflexivity |].
  destruct (ReadPoint_ok
              (decoder ((le_split 4 (Float32bits (Lat p))
                           ++ le_split 4 (Float32bits (Lon p))) ++ rest))
              (le_split 4 (Float32bits (Lat p))) (le_split 4 (Float32bits (Lon p)))
              rest (wf_decoder _) (length_le_split _ _) (length_le_split _ _))
    as (m' & D & R & _).
  { unfold decoder, NewMdasIO. cbn [r]. rewrite <- app_assoc. reflexivity. }
  rewrite D. cbn [value unread]. rewrite !le_combine_split.
  rewrite !Z.mod_small by assumption.
  destruct p as [[lat] [lon]]. split; [reflexivity | exact R].
Qed.

Lemma Point_round_trip_witness :
  let p := mkPoint (Float32frombits 0xC2480000) (Float32frombits 0x43340000) in
  let enc := WritePoint p encoder in
  let o := ReadPoint (decoder (written enc ++ [Byte.x07])) in
  value enc = Some None /\
  written enc = le_split 4 (Float32bits (Lat p)) ++ le_split 4 (Float32bits (Lon p)) /\
  value o = Some (p, None) /\ unread o = [Byte.x07].
Proof.
  apply (Point_round_trip
           (mkPoint (Float32frombits 0xC2480000) (Float32frombits 0x43340000))
           [Byte.x07]); simpl; lia.
Defined.

(** A geometry is written and read as a length-prefixed string: four bytes
    of length and then its bytes, which come back unchanged. *)
Theorem Geometry_round_trip (intSize : Z) (fuel : nat) (g : Geometry)
    (rest : list byte) :
  intSize = 32 \/ intSize = 64 ->
  len g < 2 ^ 31 ->
  let enc := WriteGeometry (Datatypes.S fuel) g encoder in
  let o := ReadGeometry intSize (decoder (written enc ++ rest)) in
  value enc = Some None /\
  length (written enc) = (4 + length g)%nat /\
  value o = Some (g, None) /\ unread o = rest.
Proof.
  intros Hi Hg. cbv zeta. unfold WriteGeometry, ReadGeometry.
  rewrite WriteString_Buffer.
  cbn [written value emit w contents encoder NewMdasIO app]. cbv zeta.
  rewrite (ReadString_encoded intSize Hi (decoder _) g rest
             (wf_decoder _) Hg (decoder_app _ _)).
  cbn [value unread advance r].
  rewrite length_app, length_le_split. repeat split.
Qed.

Lemma Geometry_round_trip_witness :
  let g := [Byte.x50; Byte.x4f; Byte.x00; Byte.x49] in
  let enc := WriteGeometry 1 g encoder in
  let o := ReadGeometry 64 (decoder (written enc ++ [Byte.x07])) in
  value enc = Some None /\
  length (written enc) = 8%nat /\
  value o = Some (g, None) /\ unread o = [Byte.x07].
Proof.
  apply (Geometry_round_trip 64 0 [Byte.x50; Byte.x4f; Byte.x00; Byte.x49] [Byte.x07]).
  - right. reflexivity.
  - vm_compute. reflexivity.
Defined.

(** ** From bytes to a value and back *)

Lemma le_split_le_combine_uint (k : nat) (w : Z) (p : list byte) :
  length p = k -> w = Z.of_nat k * 8 -> le_split k (uint w (le_combine p)) = p.
Proof.
  intros Hk ->. rewrite uint_small.
  - apply split_le_combine'. exact Hk.
  - pose proof (le_combine_bound p) as Hb. rewrite Hk in Hb.
    replace (Z.of_nat k * 8) with (8 * Z.of_nat k) by lia. exact Hb.
Qed.

(** Whatever bytes a fixed-width integer or float was decoded from,
    encoding the decoded value writes those bytes again; this holds for
    [ReadInt] and [WriteInt] on either width of [int]. *)
Theorem reencode_decoded (intSize : Z) (p2 p4 p8 rest : list byte) :
  intSize = 32 \/ intSize = 64 ->
  length p2 = 2%nat -> length p4 = 4%nat -> length p8 = 8%nat ->
  (exists x, value (ReadInt16 (decoder (p2 ++ rest))) = Some (x, None) /\
             written (WriteInt16 x encoder) = p2) /\
  (exists x, value (ReadInt intSize (decoder (p4 ++ rest))) = Some (x, None) /\
             written (WriteInt x encoder) = p4) /\
  (exists x, value (ReadInt64 (decoder (p8 ++ rest))) = Some (x, None) /\
             written (WriteInt64 x encoder) = p8) /\
  (exists x, value (ReadFloat (decoder (p4 ++ rest))) = Some (x, None) /\
             written (WriteFloat x encoder) = p4).
Proof.
  intros Hi H2 H4 H8. repeat match goal with |- _ /\ _ => split end.
  - rewrite (ReadInt16_ok (decoder (p2 ++ rest)) p2 rest (wf_decoder _) H2 eq_refl).
    eexists. split; [reflexivity |]. rewrite WriteInt16_Buffer.
    cbn [written emit w contents encoder NewMdasIO app].
    rewrite uint_sint by lia. apply le_split_le_combine_uint; [exact H2 | reflexivity].
  - rewrite (ReadInt_ok intSize (decoder (p4 ++ rest)) p4 rest (wf_decoder _) H4 eq_refl).
    eexists. split; [reflexivity |]. rewrite WriteInt_Buffer.
    cbn [written emit w contents encoder NewMdasIO app].
    destruct Hi as [-> | ->].
    + rewrite uint_sint by lia.
      apply le_split_le_combine_uint; [exact H4 | reflexivity].
    + rewrite sint64_prefix by exact H4.
      apply le_split_le_combine_uint; [exact H4 | reflexivity].
  - rewrite (ReadInt64_ok (decoder (p8 ++ rest)) p8 rest (wf_decoder _) H8 eq_refl).
    eexists. split; [reflexivity |]. rewrite WriteInt64_Buffer.
    cbn [written emit w contents encoder NewMdasIO app].
    rewrite uint_sint by lia. apply le_split_le_combine_uint; [exact H8 | reflexivity].
  - rewrite (ReadFloat_ok (decoder (p4 ++ rest)) p4 rest (wf_decoder _) H4 eq_refl).
    eexists. split; [reflexivity |]. rewrite WriteFloat_Buffer.
    cbn [written emit w contents encoder NewMdasIO app Float32bits].
    apply split_le_combine'. exact H4.
Qed.

Lemma reencode_decoded_witness :
  exists x,
    value (ReadInt 64 (decoder ([Byte.xfe; Byte.xff; Byte.xff; Byte.xff] ++ [])))
    = Some (x, None) /\
    written (WriteInt x encoder) = [Byte.xfe; Byte.xff; Byte.xff; Byte.xff].
Proof.
  apply (reencode_decoded 64 [Byte.x01; Byte.x02]
           [Byte.xfe; Byte.xff; Byte.xff; Byte.xff]
           [Byte.x01; Byte.x02; Byte.x03; Byte.x04; Byte.x05; Byte.x06; Byte.x07;
            Byte.x08] []); try reflexivity.
  right. reflexivity.
Defined.

(** ** Timestamps, durations and geometries from a stream that ends too early *)

(** On fewer than eight bytes [ReadDate] returns the zero [time.Time] and
    [ReadDuration] the zero duration, each with a truncation error; on a
    geometry cut short [ReadGeometry] returns the empty geometry with a
    truncation error. *)
Theorem truncated_time_and_geometry (intSize : Z) {S : Type} (m : MdasIO S) :
  intSize = 32 \/ intSize = 64 ->
  wf m ->
  ((length (r m) < 8)%nat -> failsWith zeroTime (ReadDate m)) /\
  ((length (r m) < 8)%nat -> failsWith 0 (ReadDuration m)) /\
  (forall g : Geometry,
      len g < 2 ^ 31 -> strictPrefix (r m) (wireString g) ->
      failsWith [] (ReadGeometry intSize m)).
Proof.
  intros Hi Hm. repeat match goal with |- _ /\ _ => split end.
  - intros H. unfold ReadDate, try, bind.
    destruct (ReadInt64_short m Hm H) as (e & m' & E & He & _). rewrite E.
    exists e, m'. auto.
  - intros H. unfold ReadDuration, try, bind.
    destruct (ReadInt64_short m Hm H) as (e & m' & E & He & _). rewrite E.
    exists e, m'. auto.
  - intros g Hg Hs. unfold ReadGeometry.
    apply (ReadString_truncated intSize Hi m g Hm Hg Hs).
Qed.

Lemma truncated_time_and_geometry_witness :
  failsWith zeroTime (ReadDate (decoder [Byte.x01; Byte.x02; Byte.x03])) /\
  failsWith 0 (ReadDuration (decoder [Byte.x01; Byte.x02; Byte.x03])).
Proof.
  destruct (truncated_time_and_geometry 64 (decoder [Byte.x01; Byte.x02; Byte.x03]))
    as (HD & HN & _).
  - right. reflexivity.
  - reflexivity.
  - split; [apply HD | apply HN]; simpl; lia.
Defined.

(** ** No panic where [int] has 64 bits *)

Lemma ReadString_returns_64 {S : Type} (m : MdasIO S) :
  wf m -> exists a m', ReadString 64 m = Ret (a, m') /\ wf m'.
Proof.
  intros Hm.
  destruct (Nat.lt_ge_cases (length (r m)) 4) as [Hlt | Hge].
  - destruct (ReadString_short_prefix 64 m Hm Hlt) as (e & m' & E & _ & Hm').
    eauto.
  - set (p := firstn 4 (r m)). set (body := skipn 4 (r m)).
    assert (Hp : length p = 4%nat) by (unfold p; rewrite length_firstn; lia).
    assert (Hr : r m = p ++ body) by (symmetry; apply firstn_skipn).
    pose proof (sint64_prefix p Hp) as Hs.
    pose proof (le_combine_bound p) as Hb.
    destruct (Z.le_gt_cases (le_combine p) (len body)) as [Hle | Hgt].
    + exists (firstn (Z.to_nat (le_combine p)) body, None). eexists. split.
      * apply (ReadString_ok 64 m p (firstn (Z.to_nat (le_combine p)) body)
                 (skipn (Z.to_nat (le_combine p)) body) Hm Hp).
        -- rewrite Hs. unfold len in *. rewrite length_firstn. lia.
        -- rewrite firstn_skipn. exact Hr.
      * apply wf_advance; [exact Hm | lia].
    + destruct (ReadString_short_body 64 m p body Hm Hp) as (e & m' & E & _ & Hm');
        [rewrite Hs; lia | exact Hr |]. eauto.
Qed.

(** Where [int] has 64 bits, [ReadString], [ReadGeometry] and [ReadUnit]
    return on every stream: the length prefix is never negative there, so
    the allocation cannot panic, and the call ends with a value or with an
    error. *)
Theorem strings_return_64 {S : Type} (m : MdasIO S) :
  wf m ->
  (exists a m', ReadString 64 m = Ret (a, m')) /\
  (exists a m', ReadGeometry 64 m = Ret (a, m')) /\
  (exists a m', ReadUnit 64 m = Ret (a, m')).
Proof.
  intros Hm.
  destruct (ReadString_returns_64 m Hm) as ([a1 e1] & m1 & E1 & W1).
  split; [eauto |]. split; [unfold ReadGeometry; eauto |].
  unfold ReadUnit, try, bind. rewrite E1.
  destruct e1 as [e1 |]; [unfold ret; eauto |].
  destruct (ReadString_returns_64 m1 W1) as ([a2 e2] & m2 & E2 & W2). rewrite E2.
  destruct e2 as [e2 |]; [unfold ret; eauto |].
  destruct (ReadString_returns_64 m2 W2) as ([a3 e3] & m3 & E3 & W3). rewrite E3.
  destruct e3 as [e3 |]; unfold ret; eauto.
Qed.

Lemma strings_return_64_witness :
  exists a m',
    ReadUnit 64 (decoder [Byte.xff; Byte.xff; Byte.xff; Byte.xff; Byte.x41])
    = Ret (a, m').
Proof.
  apply (strings_return_64 (decoder [Byte.xff; Byte.xff; Byte.xff; Byte.xff; Byte.x41])).
  reflexivity.
Defined.

(** ** Sinks that chunk, over-report or refuse *)

Lemma writeAll_Chunked (fuel : nat) :
  forall (b : list byte) (m : MdasIO Chunked),
    (0 < chunk (w m))%nat -> (length b <= fuel)%nat ->
    writeAll fuel b m
    = Ret (None, mkMdasIO (r m) (mkChunked (chunk (w m)) (taken (w m) ++ b)) (buf m)).
Proof.
  induction fuel as [| fuel IH]; intros b m Hc Hl.
  - destruct b; [| simpl in Hl; lia]. destruct m as [rd [c t] sc].
    cbn. rewrite app_nil_r. reflexivity.
  - destruct b as [| x b].
    { destruct m as [rd [c t] sc]. cbn. rewrite app_nil_r. reflexivity. }
    assert (Hb : x :: b <> []) by discriminate.
    rewrite (writeAll_step fuel _ m Hb). cbv zeta.
    cbv [Write Chunked_Writer]. cbn [fst snd].
    destruct (slice (x :: b) (len (firstn (chunk (w m)) (x :: b))) (len (x :: b)))
      as [b' |] eqn:Es.
    + apply slice_rest in Es. destruct Es as [Hn ->].
      unfold len in *. rewrite Nat2Z.id in *.
      assert (Hf : (0 < length (firstn (chunk (w m)) (x :: b)))%nat).
      { rewrite length_firstn. cbn [length]. lia. }
      rewrite IH.
      * cbn [r w buf chunk taken]. rewrite <- app_assoc.
        rewrite length_firstn.
        replace (skipn (Nat.min (chunk (w m)) (length (x :: b))) (x :: b))
          with (skipn (chunk (w m)) (x :: b)).
        -- rewrite firstn_skipn. reflexivity.
        -- destruct (Nat.le_gt_cases (chunk (w m)) (length (x :: b))).
           ++ rewrite Nat.min_l by lia. reflexivity.
           ++ rewrite Nat.min_r by lia. rewrite !skipn_all2 by lia. reflexivity.
      * exact Hc.
      * rewrite length_skipn. cbn [length] in *. lia.
    + exfalso. unfold slice, len in Es. rewrite Z.leb_refl in Es.
      rewrite length_firstn in Es.
      destruct (Z.leb_spec 0 (Z.of_nat (Nat.min (chunk (w m)) (length (x :: b)))));
        [| lia].
      destruct (Z.leb_spec (Z.of_nat (Nat.min (chunk (w m)) (length (x :: b))))
                  (Z.of_nat (length (x :: b)))); [| lia].
      discriminate.
Qed.

(** Against a sink that takes at most [k >= 1] bytes per call and reports
    no error, [writeAll] needs no more than [len(b)] calls, returns [nil],
    and the sink has received exactly the bytes of [b], in order.
    [WriteString] through such a sink succeeds the same way when [k >= 4],
    and with [k < 4] it returns [ErrNoFullWrite] after [k] bytes of the
    length prefix went out and none of the body. *)
Theorem chunked_sink_delivery (k : nat) (got b v : list byte) :
  (0 < k)%nat ->
  let m := NewMdasIO [] (mkChunked k got) in
  (exists m', writeAll (length b) b m = Ret (None, m') /\
              taken (w m') = got ++ b) /\
  ((4 <= k)%nat ->
   exists m', WriteString (length v) v m = Ret (None, m') /\
              taken (w m') = got ++ wireString v) /\
  ((k < 4)%nat ->
   exists m', WriteString (length v) v m = Ret (Some ErrNoFullWrite, m') /\
              taken (w m') = got ++ firstn k (le_split 4 (uint 32 (len v)))).
Proof.
  intros Hk m. repeat match goal with |- _ /\ _ => split end.
  - unfold m. rewrite writeAll_Chunked by (cbn; lia). eexists.
    split; reflexivity.
  - intros H4. unfold WriteString, bind. rewrite WriteInt_eq. cbv zeta.
    cbv [Write Chunked_Writer]. cbn [fst snd w NewMdasIO m chunk taken r buf].
    rewrite firstn_all2 by (rewrite length_le_split; lia).
    unfold verdict, len. cbn [fst snd]. rewrite length_le_split. cbn [Z.eqb Z.of_nat Pos.eqb Pos.of_succ_nat Pos.succ].
    rewrite writeAll_Chunked by (cbn; lia). eexists. split; [reflexivity |].
    cbn [w taken chunk]. unfold wireString. rewrite <- app_assoc. reflexivity.
  - intros H4. unfold WriteString, bind. rewrite WriteInt_eq. cbv zeta.
    cbv [Write Chunked_Writer]. cbn [fst snd w NewMdasIO m chunk taken r buf].
    unfold verdict, len. cbn [fst snd]. rewrite length_firstn, length_le_split.
    destruct (Z.eqb_spec (Z.of_nat (Nat.min k 4)) (Z.of_nat 4)) as [E | E]; [lia |].
    eexists. split; reflexivity.
Qed.

Lemma chunked_sink_delivery_witness :
  exists m',
    writeAll 3 [Byte.x61; Byte.x62; Byte.x63] (NewMdasIO [] (mkChunked 2 []))
    = Ret (None, m') /\
    taken (w m') = [] ++ [Byte.x61; Byte.x62; Byte.x63].
Proof.
  apply (chunked_sink_delivery 2 [] [Byte.x61; Byte.x62; Byte.x63] []). lia.
Defined.

Lemma slice_outside {A} (b : list A) (n : Z) :
  n < 0 \/ len b < n -> slice b n (len b) = None.
Proof.
  intros H. unfold slice.
  destruct (Z.leb_spec 0 n); [| reflexivity].
  destruct (Z.leb_spec n (len b)); [lia | reflexivity].
Qed.

(** A sink that reports a count it cannot have written, with no error: a
    fixed-width writer answers any count other than its width, too large
    ones included, with [ErrNoFullWrite]; the retrying writer panics on a
    count that is negative or larger than what it offered. *)
Theorem misreported_count {S : Type} {W : Writer S} (fuel : nat) (v : Z)
    (b : list byte) (m : MdasIO S) (n : Z) (s' : S) :
  (Write (w m) (le_split 4 (uint 32 v)) = ((n, None), s') -> n <> 4 ->
   value (WriteInt v m) = Some (Some ErrNoFullWrite)) /\
  (b <> [] -> Write (w m) b = ((n, None), s') -> n < 0 \/ len b < n ->
   writeAll (Datatypes.S fuel) b m = Panic SliceBoundsOutOfRange).
Proof.
  split.
  - intros E Hn. rewrite WriteInt_eq. cbv zeta. rewrite E. unfold verdict.
    cbn [fst snd value]. destruct (Z.eqb_spec n (Z.of_nat 4)); [lia | reflexivity].
  - intros Hb E Hn. rewrite (writeAll_step fuel b m Hb). cbv zeta. rewrite E.
    cbn [fst snd]. rewrite slice_outside by exact Hn. reflexivity.
Qed.

Lemma misreported_count_witness :
  value (WriteInt 7 (NewMdasIO [] inflating)) = Some (Some ErrNoFullWrite) /\
  writeAll 1 [Byte.x61] (NewMdasIO [] inflating) = Panic SliceBoundsOutOfRange.
Proof.
  split.
  - apply (misreported_count 0 7 [] (NewMdasIO [] inflating) 5 inflating).
    + reflexivity.
    + lia.
  - apply (misreported_count 0 7 [Byte.x61] (NewMdasIO [] inflating) 2 inflating).
    + discriminate.
    + reflexivity.
    + right. vm_compute. reflexivity.
Defined.

(** The first write that is refused, by an error or by a wrong count, ends
    [WritePoint], [WriteString] and [WriteGrid] with that error, the sink
    having seen that one call only: no longitude, no string body and
    nothing of the grid follows. *)
Theorem first_refusal_ends_the_call {S : Type} {W : Writer S} (intSize : Z)
    (fuel : nat) (p : Point) (v : list byte) (g : Grid) (e : error)
    (m : MdasIO S) :
  (let bs := le_split 4 (Float32bits (Lat p)) in
   verdict 4 (fst (Write (w m) bs)) = Some e ->
   exists m', WritePoint p m = Ret (Some e, m') /\ w m' = snd (Write (w m) bs)) /\
  (let bs := le_split 4 (uint 32 (len v)) in
   verdict 4 (fst (Write (w m) bs)) = Some e ->
   exists m', WriteString fuel v m = Ret (Some e, m') /\
              w m' = snd (Write (w m) bs)) /\
  (let bs := le_split 4 (uint 32 (N (header g))) in
   verdict 4 (fst (Write (w m) bs)) = Some e ->
   exists m', WriteGrid intSize fuel g m = Ret (Some e, m') /\
              w m' = snd (Write (w m) bs)).
Proof.
  repeat match goal with |- _ /\ _ => split end; cbv zeta; intros E.
  - unfold WritePoint, bind. rewrite WriteFloat_eq. cbv zeta. rewrite E.
    eexists. split; reflexivity.
  - unfold WriteString, bind. rewrite WriteInt_eq. cbv zeta. rewrite E.
    eexists. split; reflexivity.
  - unfold WriteGrid. cbv zeta. unfold andThen at 1. unfold bind.
    rewrite WriteInt_eq. cbv zeta. rewrite E.
    eexists. split; reflexivity.
Qed.

Lemma first_refusal_ends_the_call_witness :
  exists m',
    WriteString 1 [Byte.x61] (NewMdasIO [] (mkBroken (IOError 5)))
    = Ret (Some (IOError 5), m') /\
    w m' = mkBroken (IOError 5).
Proof.
  destruct (@first_refusal_ends_the_call Broken _ 64 1
              (mkPoint f0 f0) [Byte.x61] hollow (IOError 5)
              (NewMdasIO [] (mkBroken (IOError 5)))) as (_ & H & _).
  apply H. reflexivity.
Defined.

(** ** What the decoders leave alone *)

Lemma io_ReadFull_front (rd b : list byte) :
  length (fst (fst (io_ReadFull rd b))) = length b /\
  exists consumed, rd = consumed ++ snd (io_ReadFull rd b).
Proof.
  unfold io_ReadFull.
  destruct (length b =? 0)%nat; [split; [reflexivity | exists []; reflexivity] |].
  destruct (length rd =? 0)%nat; [split; [reflexivity | exists []; reflexivity] |].
  destruct (Nat.ltb_spec (length rd) (length b)) as [H | H]; cbn [fst snd].
  - split; [apply length_overwrite; lia | exists rd; symmetry; apply app_nil_r].
  - split; [rewrite length_firstn; lia |].
    exists (firstn (length b) rd). symmetry. apply firstn_skipn.
Qed.

Section ReadsOnly.
Context {S : Type}.
Variable intSize : Z.

Lemma readsOnly_ret {A} (a : A) : readsOnly (@ret S A a).
Proof.
  intros m a' m' Hm E. injection E as <- <-.
  split; [exact Hm |]. split; [reflexivity | exists []; reflexivity].
Qed.

Lemma readsOnly_raise {A} (p : panic) : readsOnly (@raise S A p).
Proof. intros m a m' Hm E. discriminate E. Qed.

Lemma readsOnly_bind {A B} (c : IO S A) (k : A -> IO S B) :
  readsOnly c -> (forall a, readsOnly (k a)) -> readsOnly (bind c k).
Proof.
  intros Hc Hk m b m' Hm E. unfold bind in E.
  destruct (c m) as [[a m1] | |] eqn:Ec; try discriminate.
  destruct (Hc m a m1 Hm Ec) as (W1 & S1 & c1 & R1).
  destruct (Hk a m1 b m' W1 E) as (W2 & S2 & c2 & R2).
  split; [exact W2 |]. split; [congruence |].
  exists (c1 ++ c2). rewrite R1, R2, app_assoc. reflexivity.
Qed.

Lemma readsOnly_try {A B} (c : IO S (A * option error)) (partial : A -> B)
    (k : A -> IO S (B * option error)) :
  readsOnly c -> (forall a, readsOnly (k a)) -> readsOnly (try c partial k).
Proof.
  intros Hc Hk. unfold try. apply readsOnly_bind; [exact Hc |].
  intros [a [e |]]; [apply readsOnly_ret | apply Hk].
Qed.

Lemma readsOnly_readBuf (k : nat) : (k <= 8)%nat -> readsOnly (@readBuf S k).
Proof.
  intros Hk m a m' Hm E. unfold readBuf in E.
  destruct (io_ReadFull_front (r m) (firstn k (buf m))) as (Hl & c & Hc).
  destruct (io_ReadFull (r m) (firstn k (buf m))) as [[b e] rd].
  cbn [fst snd] in *. injection E as <- <-. cbn [r w buf]. unfold wf in *.
  cbn [buf]. split.
  - rewrite length_overwrite; [exact Hm |]. rewrite Hl, length_firstn. lia.
  - split; [reflexivity | exists c; exact Hc].
Qed.

Lemma readsOnly_readInto (b : list byte) : readsOnly (@readInto S b).
Proof.
  intros m a m' Hm E. unfold readInto in E.
  destruct (io_ReadFull_front (r m) b) as (_ & c & Hc).
  destruct (io_ReadFull (r m) b) as [[b' e] rd].
  cbn [fst snd] in *. injection E as <- <-. cbn [r w buf].
  split; [exact Hm |]. split; [reflexivity | exists c; exact Hc].
Qed.

Lemma readsOnly_getBuf (k : nat) : readsOnly (@getBuf S k).
Proof.
  intros m a m' Hm E. injection E as <- <-.
  split; [exact Hm |]. split; [reflexivity | exists []; reflexivity].
Qed.

Ltac scalar_readsOnly :=
  apply readsOnly_bind; [apply readsOnly_readBuf; lia |];
  intros [e |]; [apply readsOnly_ret |];
  apply readsOnly_bind; [apply readsOnly_getBuf | intros b; apply readsOnly_ret].

Lemma readsOnly_ReadBool : readsOnly (@ReadBool S).
Proof. unfold ReadBool. scalar_readsOnly. Qed.

Lemma readsOnly_ReadInt16 : readsOnly (@ReadInt16 S).
Proof. unfold ReadInt16. scalar_readsOnly. Qed.

Lemma readsOnly_ReadInt : readsOnly (@ReadInt S intSize).
Proof. unfold ReadInt. scalar_readsOnly. Qed.

Lemma readsOnly_ReadInt64 : readsOnly (@ReadInt64 S).
Proof. unfold ReadInt64. scalar_readsOnly. Qed.

Lemma readsOnly_ReadFloat : readsOnly (@ReadFloat S).
Proof. unfold ReadFloat. scalar_readsOnly. Qed.

Lemma readsOnly_ReadString : readsOnly (@ReadString S intSize).
Proof.
  unfold ReadString. apply readsOnly_try; [apply readsOnly_ReadInt |].
  intros strLen. destruct (make _ _ Byte.x00 strLen); [| apply readsOnly_raise].
  apply readsOnly_bind; [apply readsOnly_readInto |].
  intros [b [e |]]; apply readsOnly_ret.
Qed.

Lemma readsOnly_ReadDate : readsOnly (@ReadDate S).
Proof.
  unfold ReadDate. apply readsOnly_try; [apply readsOnly_ReadInt64 |].
  intros sec. apply readsOnly_ret.
Qed.

Lemma readsOnly_ReadDuration : readsOnly (@ReadDuration S).
Proof.
  unfold ReadDuration. apply readsOnly_try; [apply readsOnly_ReadInt64 |].
  intros ns. apply readsOnly_ret.
Qed.

Lemma readsOnly_ReadPoint : readsOnly (@ReadPoint S).
Proof.
  unfold ReadPoint.
  apply readsOnly_try; [apply readsOnly_ReadFloat | intros lat].
  apply readsOnly_try; [apply readsOnly_ReadFloat | intros lon].
  apply readsOnly_ret.
Qed.

Lemma readsOnly_ReadUnit : readsOnly (@ReadUnit S intSize).
Proof.
  unfold ReadUnit.
  apply readsOnly_try; [apply readsOnly_ReadString | intros id].
  apply readsOnly_try; [apply readsOnly_ReadString | intros name].
  apply readsOnly_try; [apply readsOnly_ReadString | intros ty].
  apply readsOnly_ret.
Qed.

Lemma readsOnly_ReadGrid_header : readsOnly (@ReadGrid_header S intSize).
Proof.
  unfold ReadGrid_header. cbv zeta.
  repeat (apply readsOnly_try;
          [first [apply readsOnly_ReadInt | apply readsOnly_ReadFloat] | intros ?]).
  apply readsOnly_ret.
Qed.

Lemma readsOnly_ReadGrid_rows (n : nat) :
  forall (i : Z) (rowBuf : list byte) (grid : Grid),
    readsOnly (@ReadGrid_rows S intSize n i rowBuf grid).
Proof.
  induction n as [| n IH]; intros i rowBuf grid.
  - apply readsOnly_ret.
  - cbn [ReadGrid_rows]. apply readsOnly_bind; [apply readsOnly_readInto |].
    intros [rowBuf' [e |]]; [apply readsOnly_ret |].
    destruct (make _ _ f0 (M (header grid))); [| apply readsOnly_raise].
    intros m a m' Hm E.
    destruct (ReadGrid_cols intSize (Z.to_nat (M (header grid))) 0 (buf m) l);
      try discriminate.
    destruct (store (Data grid) i a0); [| discriminate].
    apply (IH _ _ _ m a m' Hm E).
Qed.

Lemma readsOnly_ReadGrid : readsOnly (@ReadGrid S intSize).
Proof.
  unfold ReadGrid. apply readsOnly_bind; [apply readsOnly_ReadGrid_header |].
  intros [grid [e |]]; [apply readsOnly_ret |].
  destruct (make _ _ Byte.x00 _); [| apply readsOnly_raise].
  destruct (make _ _ [] _); [| apply readsOnly_raise].
  apply readsOnly_ReadGrid_rows.
Qed.

End ReadsOnly.

(** No decoder, when it returns (with a value or with an error), has
    written to the sink or changed the size of the scratch buffer, and what
    it leaves unread is the input with some bytes taken from its front. *)
Theorem decoders_leave_the_sink_alone (intSize : Z) (S : Type) :
  readsOnly (@ReadBool S) /\ readsOnly (@ReadInt16 S) /\
  readsOnly (@ReadInt S intSize) /\ readsOnly (@ReadInt64 S) /\
  readsOnly (@ReadFloat S) /\ readsOnly (@ReadString S intSize) /\
  readsOnly (@ReadDate S) /\ readsOnly (@ReadDuration S) /\
  readsOnly (@ReadPoint S) /\ readsOnly (@ReadGeometry S intSize) /\
  readsOnly (@ReadGrid S intSize) /\ readsOnly (@ReadUnit S intSize).
Proof.
  repeat match goal with |- _ /\ _ => split end.
  - apply readsOnly_ReadBool.
  - apply readsOnly_ReadInt16.
  - apply readsOnly_ReadInt.
  - apply readsOnly_ReadInt64.
  - apply readsOnly_ReadFloat.
  - apply readsOnly_ReadString.
  - apply readsOnly_ReadDate.
  - apply readsOnly_ReadDuration.
  - apply readsOnly_ReadPoint.
  - unfold ReadGeometry. apply readsOnly_ReadString.
  - apply readsOnly_ReadGrid.
  - apply readsOnly_ReadUnit.
Qed.

Lemma decoders_leave_the_sink_alone_witness :
  let m := decoder [Byte.x01; Byte.x02; Byte.x03; Byte.x04; Byte.x05] in
  let m' := advance m [Byte.x01; Byte.x02; Byte.x03; Byte.x04] [Byte.x05] in
  wf m' /\ w m' = w m /\ exists consumed, r m = consumed ++ r m'.
Proof.
  intros m m'.
  destruct (decoders_leave_the_sink_alone 64 unit) as (_ & _ & H & _).
  apply (H m (67305985, None) m'); reflexivity.
Defined.

(** ** What the encoders leave alone *)

Section WritesOnly.
Context {S : Type} {W : Writer S}.
Variable intSize : Z.

Lemma writesOnly_ret {A} (a : A) : writesOnly (@ret S A a).
Proof. intros m a' m' Hm E. injection E as <- <-. auto. Qed.

Lemma writesOnly_raise {A} (p : panic) : writesOnly (@raise S A p).
Proof. intros m a m' Hm E. discriminate E. Qed.

Lemma writesOnly_bind {A B} (c : IO S A) (k : A -> IO S B) :
  writesOnly c -> (forall a, writesOnly (k a)) -> writesOnly (bind c k).
Proof.
  intros Hc Hk m b m' Hm E. unfold bind in E.
  destruct (c m) as [[a m1] | |] eqn:Ec; try discriminate.
  destruct (Hc m a m1 Hm Ec) as (W1 & R1).
  destruct (Hk a m1 b m' W1 E) as (W2 & R2).
  split; [exact W2 | congruence].
Qed.

Lemma writesOnly_andThen (c k : IO S (option error)) :
  writesOnly c -> writesOnly k -> writesOnly (andThen c k).
Proof.
  intros Hc Hk. unfold andThen. apply writesOnly_bind; [exact Hc |].
  intros [e |]; [apply writesOnly_ret | exact Hk].
Qed.

Lemma writesOnly_fixed (k : nat) (bs : list byte) :
  length bs = k -> (k <= 8)%nat -> writesOnly (putBuf bs ;; @writeBuf S W k).
Proof.
  intros Hl Hk m a m' Hm E. rewrite (fixed_write k bs m Hl) in E.
  injection E as <- <-. cbn [r buf]. unfold wf in *. cbn [buf].
  split; [| reflexivity]. rewrite length_overwrite; lia.
Qed.

Lemma writesOnly_WriteBool (v : bool) : writesOnly (WriteBool v).
Proof. unfold WriteBool. apply writesOnly_fixed; [reflexivity | lia]. Qed.

Lemma writesOnly_WriteInt16 (v : Z) : writesOnly (WriteInt16 v).
Proof. unfold WriteInt16. apply writesOnly_fixed; [apply length_le_split | lia]. Qed.

Lemma writesOnly_WriteInt (v : Z) : writesOnly (WriteInt v).
Proof. unfold WriteInt. apply writesOnly_fixed; [apply length_le_split | lia]. Qed.

Lemma writesOnly_WriteInt64 (v : Z) : writesOnly (WriteInt64 v).
Proof. unfold WriteInt64. apply writesOnly_fixed; [apply length_le_split | lia]. Qed.

Lemma writesOnly_WriteFloat (v : float32) : writesOnly (WriteFloat v).
Proof. unfold WriteFloat. apply writesOnly_fixed; [apply length_le_split | lia]. Qed.

Lemma writesOnly_writeAll (fuel : nat) :
  forall b : list byte, writesOnly (writeAll fuel b).
Proof.
  induction fuel as [| fuel IH]; intros b m a m' Hm E.
  - destruct b; [| discriminate]. injection E as <- <-. auto.
  - destruct b as [| x b]; [injection E as <- <-; auto |].
    rewrite writeAll_step in E by discriminate. cbv zeta in E.
    destruct (snd (fst (Write (w m) (x :: b)))).
    + injection E as <- <-. auto.
    + destruct (slice (x :: b) _ _); [| discriminate].
      destruct (IH _ _ _ _ (Hm : wf (mkMdasIO (r m) _ (buf m))) E) as (W1 & R1).
      auto.
Qed.

Lemma writesOnly_WriteString (fuel : nat) (v : list byte) :
  writesOnly (WriteString fuel v).
Proof.
  apply (writesOnly_andThen (WriteInt (len v)) (writeAll fuel v)).
  - apply writesOnly_WriteInt.
  - apply writesOnly_writeAll.
Qed.

Lemma writesOnly_WritePoint (p : Point) : writesOnly (WritePoint p).
Proof.
  apply (writesOnly_andThen (WriteFloat (Lat p)) (WriteFloat (Lon p)));
    apply writesOnly_WriteFloat.
Qed.

Lemma writesOnly_WriteGrid_rows (fuel n : nat) :
  forall (i : Z) (v : Grid) (rowBuf : list byte),
    writesOnly (WriteGrid_rows intSize fuel n i v rowBuf).
Proof.
  induction n as [| n IH]; intros i v rowBuf.
  - apply writesOnly_ret.
  - cbn [WriteGrid_rows].
    destruct (WriteGrid_cols intSize (Z.to_nat (M (header v))) i 0 (Data v) rowBuf).
    + apply writesOnly_andThen; [apply writesOnly_writeAll | apply IH].
    + apply writesOnly_raise.
    + intros m a m' Hm E. discriminate E.
Qed.

Lemma writesOnly_WriteGrid (fuel : nat) (v : Grid) :
  writesOnly (WriteGrid intSize fuel v).
Proof.
  unfold WriteGrid. cbv zeta.
  repeat (apply writesOnly_andThen;
          [first [apply writesOnly_WriteInt | apply writesOnly_WriteFloat] |]).
  destruct (make _ _ Byte.x00 _); [| apply writesOnly_raise].
  apply writesOnly_WriteGrid_rows.
Qed.

End WritesOnly.

(** No encoder, when it returns (with [nil] or with an error), has taken
    anything from the input or changed the size of the scratch buffer,
    whatever the sink did. *)
Theorem encoders_leave_the_input_alone (intSize : Z) (S : Type) (W : Writer S)
    (fuel : nat) :
  (forall v, writesOnly (WriteBool v)) /\
  (forall v, writesOnly (WriteInt16 v)) /\
  (forall v, writesOnly (WriteInt v)) /\
  (forall v, writesOnly (WriteInt64 v)) /\
  (forall v, writesOnly (WriteFloat v)) /\
  (forall b, writesOnly (writeAll fuel b)) /\
  (forall v, writesOnly (WriteString fuel v)) /\
  (forall v, writesOnly (WriteDate v)) /\
  (forall v, writesOnly (WriteDuration v)) /\
  (forall v, writesOnly (WritePoint v)) /\
  (forall v, writesOnly (WriteGeometry fuel v)) /\
  (forall v, writesOnly (WriteGrid intSize fuel v)).
Proof.
  repeat match goal with |- _ /\ _ => split end; intros v.
  - apply writesOnly_WriteBool.
  - apply writesOnly_WriteInt16.
  - apply writesOnly_WriteInt.
  - apply writesOnly_WriteInt64.
  - apply writesOnly_WriteFloat.
  - apply writesOnly_writeAll.
  - apply writesOnly_WriteString.
  - unfold WriteDate. apply writesOnly_WriteInt64.
  - unfold WriteDuration. apply writesOnly_WriteInt64.
  - apply writesOnly_WritePoint.
  - unfold WriteGeometry. apply writesOnly_WriteString.
  - apply writesOnly_WriteGrid.
Qed.

Lemma encoders_leave_the_input_alone_witness :
  let m := NewMdasIO [Byte.x09] (mkChunked 3 []) in
  let m' := mkMdasIO [Byte.x09] (mkChunked 3 [Byte.x07; Byte.x00; Byte.x00])
              [Byte.x07; Byte.x00; Byte.x00; Byte.x00; Byte.x00; Byte.x00;
               Byte.x00; Byte.x00] in
  wf m' /\ r m' = r m.
Proof.
  intros m m'.
  destruct (encoders_leave_the_input_alone 64 Chunked _ 1) as (_ & _ & H & _).
  apply (H 7 m (Some ErrNoFullWrite) m'); reflexivity.
Defined.

(** ** Decoding a grid: what the rows are made of *)



Section GridRows.
Context {S : Type}.
Variable intSize : Z.
Hypothesis intSize_32_64 : intSize = 32 \/ intSize = 64.




End GridRows.

Section GridCells.
Context {S : Type}.
Variable intSize : Z.
Hypothesis intSize_32_64 : intSize = 32 \/ intSize = 64.




End GridCells.





(** ** Encoding a grid: the bytes written *)

Lemma index_of_nat {A} (l : list A) (j : nat) :
  index l (Z.of_nat j) = nth_error l j.
Proof.
  unfold index, len. rewrite Nat2Z.id.
  destruct (Z.leb_spec 0 (Z.of_nat j)); [| lia].
  destruct (Z.ltb_spec (Z.of_nat j) (Z.of_nat (length l))); cbn [andb];
    [reflexivity |].
  symmetry. apply nth_error_None. lia.
Qed.

Lemma skipn_nth_error {A} (l : list A) (j : nat) (x : A) :
  nth_error l j = Some x -> skipn j l = x :: skipn (Datatypes.S j) l.
Proof.
  revert l. induction j as [| j IH]; intros [| y l] H; try discriminate.
  - injection H as ->. reflexivity.
  - cbn [nth_error] in H. cbn [skipn]. apply IH. exact H.
Qed.

Lemma length_wireRow (cols : Z) (row : list float32) :
  0 <= cols <= len row -> len (wireRow cols row) = 4 * cols.
Proof.
  unfold wireRow, len. intros H.
  assert (Hl : forall l : list float32,
             length (concat (map wireFloat l)) = (4 * length l)%nat).
  { induction l as [| x l IH]; [reflexivity |].
    cbn [map concat]. rewrite length_app, IH. unfold wireFloat.
    rewrite length_le_split. cbn [length]. lia. }
  rewrite Hl, length_firstn. lia.
Qed.

Lemma wireRow_0 (l : list (list float32)) : concat (map (wireRow 0) l) = [].
Proof. induction l as [| x l IH]; [reflexivity |]. cbn. exact IH. Qed.

Section GridBytes.
Variable intSize : Z.
Hypothesis intSize_32_64 : intSize = 32 \/ intSize = 64.

(** The inner loop fills [rowBuf] from offset [4 * j] on with the cells
    [j .. j + n) of the row and leaves the rest as it was. *)
Lemma WriteGrid_cols_exact (data : list (list float32)) (i : Z)
    (row : list float32) (n : nat) :
  index data i = Some row ->
  forall (j : nat) (rowBuf : list byte),
    (j + n <= length row)%nat -> (4 * (j + n) <= length rowBuf)%nat ->
    len rowBuf < 2 ^ 31 ->
    WriteGrid_cols intSize n i (Z.of_nat j) data rowBuf
    = Ret (firstn (4 * j) rowBuf
             ++ concat (map wireFloat (firstn n (skipn j row)))
             ++ skipn (4 * (j + n)) rowBuf).
Proof.
  intros Hrow. induction n as [| n IH]; intros j rowBuf Hn Hb Hmax.
  - cbn [WriteGrid_cols firstn map concat app].
    rewrite Nat.add_0_r, firstn_skipn. reflexivity.
  - cbn [WriteGrid_cols]. cbv zeta. unfold int_mul, int_add.
    unfold len in Hmax.
    rewrite (int_small intSize intSize_32_64 (4 * Z.of_nat j)) by lia.
    rewrite (int_small intSize intSize_32_64 (4 * Z.of_nat j + 4)) by lia.
    destruct (slice_in rowBuf (4 * Z.of_nat j) (4 * Z.of_nat j + 4)) as [bs Hs];
      [lia | unfold len; lia |].
    rewrite Hs, Hrow, index_of_nat.
    destruct (nth_error row j) as [x |] eqn:Ex;
      [| apply nth_error_None in Ex; lia].
    replace (Z.of_nat j + 1) with (Z.of_nat (Datatypes.S j)) by lia.
    replace (Z.to_nat (4 * Z.of_nat j)) with (4 * j)%nat by lia.
    set (A := firstn (4 * j) rowBuf).
    set (C := skipn (4 * j + 4) rowBuf).
    assert (HA : length A = (4 * j)%nat) by (unfold A; rewrite length_firstn; lia).
    assert (HB : length (le_split 4 (Float32bits x)) = 4%nat)
      by apply length_le_split.
    set (B := le_split 4 (Float32bits x)) in *.
    assert (E1 : firstn (4 * Datatypes.S j) (A ++ B ++ C) = A ++ B).
    { replace (4 * Datatypes.S j)%nat with (length A + 4)%nat by lia.
      rewrite firstn_app_2. reflexivity. }
    assert (E2 : skipn (4 * (Datatypes.S j + n)) (A ++ B ++ C)
                 = skipn (4 * (j + Datatypes.S n)) rowBuf).
    { rewrite app_assoc, skipn_app.
      rewrite skipn_all2 by (rewrite length_app; lia).
      rewrite length_app, HA, HB. cbn [app]. unfold C. rewrite skipn_skipn.
      f_equal. lia. }
    rewrite IH.
    + rewrite E1, E2. rewrite (skipn_nth_error row j x Ex). cbn [firstn map concat].
      unfold wireFloat at 2. fold B. rewrite <- !app_assoc. reflexivity.
    + lia.
    + rewrite !length_app, HA, HB. unfold C. rewrite length_skipn. lia.
    + unfold len. rewrite !length_app, HA, HB. unfold C. rewrite length_skipn. lia.
Qed.

End GridBytes.

Section GridWire.
Variable intSize : Z.
Hypothesis intSize_32_64 : intSize = 32 \/ intSize = 64.

Lemma emit_emit (m : MdasIO Buffer) (a c b1 b2 : list byte) :
  emit (emit m a b1) c b2 = emit m (a ++ c) b2.
Proof. unfold emit. cbn [r w contents]. rewrite app_assoc. reflexivity. Qed.

(** The outer loop writes the first [M] cells of each of the next [n]
    rows. *)
Lemma WriteGrid_rows_Buffer (fuel : nat) (v : Grid) (n : nat) :
  0 <= M (header v) -> 4 * M (header v) < 2 ^ 31 ->
  forall (i : nat) (rowBuf : list byte) (m : MdasIO Buffer),
    len rowBuf = 4 * M (header v) ->
    (0 < M (header v) ->
     forall k, (i <= k < i + n)%nat ->
       exists row, nth_error (Data v) k = Some row /\ M (header v) <= len row) ->
    WriteGrid_rows intSize (Datatypes.S fuel) n (Z.of_nat i) v rowBuf m
    = Ret (None,
           emit m (concat (map (wireRow (M (header v)))
                             (firstn n (skipn i (Data v))))) (buf m)).
Proof.
  intros HM Hmax. induction n as [| n IH]; intros i rowBuf m Hb Hcov.
  - cbn [WriteGrid_rows firstn map concat]. unfold ret, emit.
    rewrite app_nil_r. destruct m as [rd [c] bf]. reflexivity.
  - cbn [WriteGrid_rows].
    destruct (Z.eq_dec (M (header v)) 0) as [H0 | H0].
    + rewrite H0 in *. cbn [Z.to_nat WriteGrid_cols].
      assert (rowBuf = []) as -> by (destruct rowBuf; [reflexivity | cbn in Hb; lia]).
      unfold andThen, bind. rewrite writeAll_Buffer.
      replace (Z.of_nat i + 1) with (Z.of_nat (Datatypes.S i)) by lia.
      rewrite IH; [| reflexivity | lia].
      rewrite emit_emit, !wireRow_0. reflexivity.
    + destruct (Hcov ltac:(lia) i ltac:(lia)) as (row & Hrow & Hlen).
      pose proof (WriteGrid_cols_exact intSize intSize_32_64 (Data v) (Z.of_nat i) row
                    (Z.to_nat (M (header v)))) as Hc.
      rewrite index_of_nat in Hc. specialize (Hc Hrow 0%nat rowBuf).
      cbn [Z.of_nat] in Hc. rewrite Hc; unfold len in *; try lia.
      cbn [skipn firstn app Nat.mul Nat.add].
      rewrite skipn_all2 by lia. rewrite app_nil_r.
      fold (wireRow (M (header v)) row).
      unfold andThen, bind. rewrite writeAll_Buffer.
      replace (Z.of_nat i + 1) with (Z.of_nat (Datatypes.S i)) by lia.
      rewrite IH.
      * rewrite emit_emit. rewrite (skipn_nth_error (Data v) i row Hrow).
        reflexivity.
      * apply length_wireRow. unfold len. lia.
      * intros Hpos k Hk. apply Hcov; [exact Hpos | lia].
Qed.

Lemma length_wireRows (v : Grid) (n : nat) :
  0 <= M (header v) ->
  forall i : nat,
    (0 < M (header v) ->
     forall k, (i <= k < i + n)%nat ->
       exists row, nth_error (Data v) k = Some row /\ M (header v) <= len row) ->
    len (concat (map (wireRow (M (header v))) (firstn n (skipn i (Data v)))))
    = 4 * M (header v) * Z.of_nat n.
Proof.
  intros HM. induction n as [| n IH]; intros i Hcov.
  - unfold len. cbn. lia.
  - destruct (Z.eq_dec (M (header v)) 0) as [H0 | H0].
    + rewrite H0, wireRow_0. reflexivity.
    + destruct (Hcov ltac:(lia) i ltac:(lia)) as (row & Hrow & Hlen).
      rewrite (skipn_nth_error (Data v) i row Hrow). cbn [firstn map concat].
      unfold len. rewrite length_app.
      pose proof (length_wireRow (M (header v)) row ltac:(lia)) as H1.
      specialize (IH (Datatypes.S i)
                    ltac:(intros Hpos k Hk; apply Hcov; [exact Hpos | lia])).
      unfold len in *. lia.
Qed.

Lemma covered_nth (v : Grid) :
  covered v ->
  0 < M (header v) ->
  forall k, (0 <= k < 0 + Z.to_nat (N (header v)))%nat ->
    exists row, nth_error (Data v) k = Some row /\ M (header v) <= len row.
Proof.
  intros Hc HM k Hk. rewrite <- index_of_nat. apply Hc; [exact HM | lia].
Qed.

Lemma WriteGrid_Buffer (fuel : nat) (v : Grid) (m : MdasIO Buffer) :
  covered v -> 0 <= M (header v) -> 4 * M (header v) < 2 ^ 31 ->
  exists scratch,
    WriteGrid intSize (Datatypes.S fuel) v m = Ret (None, emit m (wireGrid v) scratch).
Proof.
  intros Hc HM Hmax. unfold WriteGrid. cbv zeta. unfold andThen, bind.
  repeat (first [rewrite WriteInt_Buffer | rewrite WriteFloat_Buffer];
          cbv beta iota zeta).
  unfold int_mul. rewrite (int_small intSize intSize_32_64) by lia.
  pose proof (maxAlloc_ge intSize) as Hfit.
  rewrite make_ok by lia.
  change 0 with (Z.of_nat 0).
  rewrite WriteGrid_rows_Buffer; try lia.
  - eexists. rewrite !emit_emit. unfold wireGrid, wireHeader, wireFloat.
    cbn [skipn]. rewrite <- !app_assoc. reflexivity.
  - unfold len. rewrite repeat_length. lia.
  - apply covered_nth. exact Hc.
Qed.

End GridWire.

(** [WriteGrid] writes the header (the two dimensions and the six floats,
    four bytes each) and then the first [M] cells of each of the first [N]
    rows, row after row: [32 + 4 * N * M] bytes.  This needs the cells to
    be there and [4 * M] to fit a 32-bit signed integer. *)
Theorem WriteGrid_wire_form (intSize : Z) (fuel : nat) (g : Grid) :
  intSize = 32 \/ intSize = 64 ->
  covered g ->
  0 <= N (header g) -> 0 <= M (header g) -> 4 * M (header g) < 2 ^ 31 ->
  let enc := WriteGrid intSize (Datatypes.S fuel) g encoder in
  value enc = Some None /\
  written enc = wireGrid g /\
  len (written enc) = 32 + 4 * M (header g) * N (header g).
Proof.
  intros Hi Hc HN HM Hmax. cbv zeta.
  destruct (WriteGrid_Buffer intSize Hi fuel g encoder Hc HM Hmax) as (scratch & E).
  rewrite E. cbn [value written emit w contents encoder NewMdasIO app].
  split; [reflexivity |]. split; [reflexivity |].
  unfold wireGrid, len. rewrite length_app.
  pose proof (length_wireRows g (Z.to_nat (N (header g))) HM 0%nat
                (covered_nth g Hc)) as Hl.
  cbn [skipn] in Hl. unfold len in Hl.
  change (length (wireHeader (header g))) with 32%nat. lia.
Qed.

Lemma WriteGrid_wire_form_witness :
  let enc := WriteGrid 64 1 scenario encoder in
  value enc = Some None /\
  written enc = wireGrid scenario /\
  len (written enc) = 56.
Proof.
  apply (WriteGrid_wire_form 64 0 scenario).
  - right. reflexivity.
  - intros _ i Hi. cbn [scenario header N M Data] in *.
    assert (Hc : i = 0 \/ i = 1) by lia.
    destruct Hc as [-> | ->]; eexists; (split; [reflexivity | vm_compute; discriminate]).
  - vm_compute. discriminate.
  - vm_compute. discriminate.
  - vm_compute. reflexivity.
Defined.

(** ** Grids without cells *)





(** ** The bytes of a string *)

(** [WriteString] into a buffer writes the low 32 bits of the length as
    four little-endian bytes and then the bytes of the string, [4 + len]
    bytes in all, and returns [nil]; the length prefix is the length itself
    as long as that is below 2^32. *)
Theorem WriteString_wire_form (fuel : nat) (v : list byte) :
  let enc := WriteString (Datatypes.S fuel) v encoder in
  value enc = Some None /\
  written enc = le_split 4 (len v mod 2 ^ 32) ++ v /\
  length (written enc) = (4 + length v)%nat /\
  le_combine (firstn 4 (written enc)) = len v mod 2 ^ 32 /\
  (len v < 2 ^ 32 -> le_combine (firstn 4 (written enc)) = len v).
Proof.
  cbv zeta. rewrite WriteString_Buffer. cbv zeta.
  cbn [value written emit w contents encoder NewMdasIO app].
  assert (Hf : firstn 4 (le_split 4 (uint 32 (len v)) ++ v)
               = le_split 4 (uint 32 (len v))).
  { rewrite <- (length_le_split 4 (uint 32 (len v))) at 1.
    replace (length (le_split 4 (uint 32 (len v))))
      with (length (le_split 4 (uint 32 (len v))) + 0)%nat by lia.
    rewrite firstn_app_2. cbn [firstn]. apply app_nil_r. }
  rewrite Hf, le_combine_split_uint by reflexivity.
  split; [reflexivity |]. split; [reflexivity |].
  split; [rewrite length_app, length_le_split; reflexivity |].
  split; [reflexivity |].
  intros Hv. apply uint_small. unfold len in *. lia.
Qed.

Lemma WriteString_wire_form_witness :
  le_combine (firstn 4 (written (WriteString 1 [Byte.x61; Byte.x00] encoder))) = 2.
Proof.
  destruct (WriteString_wire_form 0 [Byte.x61; Byte.x00]) as (_ & _ & _ & _ & H).
  apply H. vm_compute. reflexivity.
Defined.

(** * Streams that end too early: what comes back *)

(** ** The fields of a stream, four bytes each *)





Section Cut.
Context {S : Type}.
Variable intSize : Z.











Hypothesis intSize_32_64 : intSize = 32 \/ intSize = 64.



End Cut.




(** * Short writes *)

(** ** The retrying writer on a sink whose calls all advance *)

Lemma writeAll_returns {S : Type} {W : Writer S} (Ha : advances S) (fuel : nat) :
  forall (b : list byte) (m : MdasIO S),
    (length b <= fuel)%nat -> exists res m', writeAll fuel b m = Ret (res, m').
Proof.
  induction fuel as [| fuel IH]; intros b m Hl.
  - destruct b; [| simpl in Hl; lia]. eexists _, _. reflexivity.
  - destruct b as [| x b]; [eexists _, _; reflexivity |].
    assert (Hb : x :: b <> []) by discriminate.
    rewrite (writeAll_step fuel _ m Hb). cbv zeta.
    destruct (Ha (w m) (x :: b) Hb) as [He | Hn].
    + destruct (snd (fst (Write (w m) (x :: b))));
        [eexists _, _; reflexivity | congruence].
    + destruct (snd (fst (Write (w m) (x :: b)))); [eexists _, _; reflexivity |].
      destruct (slice_in (x :: b) (fst (fst (Write (w m) (x :: b)))) (len (x :: b)))
        as [b' Es]; [lia | lia |].
      rewrite Es. apply slice_rest in Es. destruct Es as [Hr ->].
      apply IH. rewrite length_skipn. unfold len in Hn. lia.
Qed.

Lemma advances_Recorder {S : Type} {W : Writer S} :
  advances S -> advances (Recorder S).
Proof.
  intros Ha s b Hb. rewrite Write_Recorder. cbn [fst snd]. apply Ha. exact Hb.
Qed.

Lemma advances_Buffer : advances Buffer.
Proof.
  intros s b Hb. right. cbv [Write Buffer_Writer fst snd].
  destruct b; [congruence |]. unfold len. cbn [length]. lia.
Qed.

(** ** Strings and grids through a sink that takes a few bytes per call *)

Lemma verdict_Chunked (k : nat) (s : Chunked) (bs : list byte) :
  length bs = k -> (k <= chunk s)%nat ->
  verdict k (fst (Write s bs)) = None /\
  snd (Write s bs) = mkChunked (chunk s) (taken s ++ bs).
Proof.
  intros <- Hk. cbv [Write Chunked_Writer]. cbn [fst snd].
  rewrite firstn_all2 by exact Hk. unfold verdict, len. cbn [fst snd].
  rewrite Z.eqb_refl. split; reflexivity.
Qed.

Lemma WriteInt_Chunked (v : Z) (m : MdasIO Chunked) :
  (4 <= chunk (w m))%nat ->
  WriteInt v m
  = let bs := le_split 4 (uint 32 v) in
    Ret (None, deliver m bs (overwrite bs (buf m))).
Proof.
  intros Hk. rewrite WriteInt_eq. cbv zeta.
  destruct (verdict_Chunked 4 (w m) (le_split 4 (uint 32 v))
              (length_le_split _ _) Hk) as [-> ->].
  reflexivity.
Qed.

Lemma WriteFloat_Chunked (v : float32) (m : MdasIO Chunked) :
  (4 <= chunk (w m))%nat ->
  WriteFloat v m
  = let bs := le_split 4 (Float32bits v) in
    Ret (None, deliver m bs (overwrite bs (buf m))).
Proof.
  intros Hk. rewrite WriteFloat_eq. cbv zeta.
  destruct (verdict_Chunked 4 (w m) (le_split 4 (Float32bits v))
              (length_le_split _ _) Hk) as [-> ->].
  reflexivity.
Qed.

Lemma writeAll_deliver (fuel : nat) (b : list byte) (m : MdasIO Chunked) :
  (0 < chunk (w m))%nat -> (length b <= fuel)%nat ->
  writeAll fuel b m = Ret (None, deliver m b (buf m)).
Proof. intros Hc Hl. apply writeAll_Chunked; assumption. Qed.

Lemma deliver_deliver (m : MdasIO Chunked) (a c b1 b2 : list byte) :
  deliver (deliver m a b1) c b2 = deliver m (a ++ c) b2.
Proof. unfold deliver. cbn [r w chunk taken]. rewrite app_assoc. reflexivity. Qed.

Lemma WriteString_Chunked (v : list byte) (m : MdasIO Chunked) :
  (4 <= chunk (w m))%nat ->
  WriteString (length v) v m
  = let p := le_split 4 (uint 32 (len v)) in
    Ret (None, deliver m (p ++ v) (overwrite p (buf m))).
Proof.
  intros Hk. unfold WriteString, bind. rewrite WriteInt_Chunked by exact Hk.
  cbv beta iota zeta.
  rewrite writeAll_deliver by (cbn [deliver w chunk]; lia).
  rewrite deliver_deliver. reflexivity.
Qed.

Section Chunks.
Variable intSize : Z.
Hypothesis intSize_32_64 : intSize = 32 \/ intSize = 64.

(** The outer loop of [WriteGrid]: each row goes out whole, in as many
    calls as the sink needs. *)
Lemma WriteGrid_rows_Chunked (fuel : nat) (v : Grid) (n : nat) :
  0 <= M (header v) -> 4 * M (header v) < 2 ^ 31 ->
  (Z.to_nat (4 * M (header v)) <= fuel)%nat ->
  forall (i : nat) (rowBuf : list byte) (m : MdasIO Chunked),
    (0 < chunk (w m))%nat ->
    len rowBuf = 4 * M (header v) ->
    (0 < M (header v) ->
     forall k, (i <= k < i + n)%nat ->
       exists row, nth_error (Data v) k = Some row /\ M (header v) <= len row) ->
    WriteGrid_rows intSize fuel n (Z.of_nat i) v rowBuf m
    = Ret (None,
           deliver m (concat (map (wireRow (M (header v)))
                                (firstn n (skipn i (Data v))))) (buf m)).
Proof.
  intros HM Hmax Hfuel. induction n as [| n IH]; intros i rowBuf m Hk Hb Hcov.
  - cbn [WriteGrid_rows firstn map concat]. unfold ret, deliver.
    rewrite app_nil_r. destruct m as [rd [c t] bf]. reflexivity.
  - cbn [WriteGrid_rows].
    destruct (Z.eq_dec (M (header v)) 0) as [H0 | H0].
    + rewrite H0 in *. cbn [Z.to_nat WriteGrid_cols].
      assert (rowBuf = []) as -> by (destruct rowBuf; [reflexivity | cbn in Hb; lia]).
      unfold andThen, bind. rewrite writeAll_deliver by (cbn [length]; lia).
      replace (Z.of_nat i + 1) with (Z.of_nat (Datatypes.S i)) by lia.
      rewrite IH; [| exact Hk | reflexivity | lia].
      rewrite deliver_deliver, !wireRow_0. reflexivity.
    + destruct (Hcov ltac:(lia) i ltac:(lia)) as (row & Hrow & Hlen).
      pose proof (WriteGrid_cols_exact intSize intSize_32_64 (Data v) (Z.of_nat i) row
                    (Z.to_nat (M (header v)))) as Hc.
      rewrite index_of_nat in Hc. specialize (Hc Hrow 0%nat rowBuf).
      cbn [Z.of_nat] in Hc. rewrite Hc; unfold len in *; try lia.
      cbn [skipn firstn app Nat.mul Nat.add].
      rewrite skipn_all2 by lia. rewrite app_nil_r.
      fold (wireRow (M (header v)) row).
      assert (Hrl : len (wireRow (M (header v)) row) = 4 * M (header v))
        by (apply length_wireRow; unfold len; lia).
      unfold andThen, bind.
      rewrite writeAll_deliver by (unfold len in Hrl; lia).
      replace (Z.of_nat i + 1) with (Z.of_nat (Datatypes.S i)) by lia.
      rewrite IH.
      * rewrite deliver_deliver. rewrite (skipn_nth_error (Data v) i row Hrow).
        reflexivity.
      * exact Hk.
      * exact Hrl.
      * intros Hpos k Hk'. apply Hcov; [exact Hpos | lia].
Qed.

Lemma WriteGrid_Chunked (v : Grid) (m : MdasIO Chunked) :
  (4 <= chunk (w m))%nat ->
  covered v -> 0 <= M (header v) -> 4 * M (header v) < 2 ^ 31 ->
  exists scratch,
    WriteGrid intSize (Z.to_nat (4 * M (header v))) v m
    = Ret (None, deliver m (wireGrid v) scratch).
Proof.
  intros Hk Hc HM Hmax. unfold WriteGrid. cbv zeta. unfold andThen, bind.
  repeat (first [rewrite WriteInt_Chunked by (cbn [deliver w chunk]; exact Hk)
                | rewrite WriteFloat_Chunked by (cbn [deliver w chunk]; exact Hk)];
          cbv beta iota zeta).
  unfold int_mul. rewrite (int_small intSize intSize_32_64) by lia.
  pose proof (maxAlloc_ge intSize) as Hfit.
  rewrite make_ok by lia.
  change 0 with (Z.of_nat 0).
  rewrite WriteGrid_rows_Chunked; try lia.
  - eexists. rewrite !deliver_deliver. unfold wireGrid, wireHeader, wireFloat.
    cbn [skipn]. rewrite <- !app_assoc. reflexivity.
  - cbn [deliver w chunk]. lia.
  - unfold len. rewrite repeat_length. lia.
  - apply covered_nth. exact Hc.
Qed.

End Chunks.

(** C6.  Each fixed-width writer makes one [Write] of its encoded bytes
    and, when the sink takes fewer bytes than that and reports no error,
    returns [ErrNoFullWrite] with the sink as that single call left it.
    The retrying writer behind string bodies and grid rows never returns
    on a short count: of a run that returned, on any sink, the log says
    that with a [nil] result no call failed and the bytes taken add up to
    all of [b], and that with an error [e] the last call returned [e].
    And it does return: on a sink each call of which returns an error or
    takes at least one and at most all of the bytes offered, the run is
    over after at most [len b] calls, with or without a log on the sink.
    Through a sink that takes at most [k >= 4] bytes per call and reports
    no error, [WriteString] and [WriteGrid] return [nil] and the sink has
    received the whole string, the whole grid: the length prefix and the
    header fields in one call each, the body and each row in as many calls
    as it takes. *)
Theorem short_write_policy {S : Type} {W : Writer S} :
  (forall v : bool,
      failsShort (WriteBool v) [if v then Byte.x01 else Byte.x00]) /\
  (forall v : Z, failsShort (WriteInt16 v) (le_split 2 (uint 16 v))) /\
  (forall v : Z, failsShort (WriteInt v) (le_split 4 (uint 32 v))) /\
  (forall v : Z, failsShort (WriteInt64 v) (le_split 8 (uint 64 v))) /\
  (forall v : float32, failsShort (WriteFloat v) (le_split 4 (Float32bits v))) /\
  (forall (fuel : nat) (b : list byte) (m m' : MdasIO (Recorder S))
          (res : option error),
      calls (w m) = [] ->
      writeAll fuel b m = Ret (res, m') ->
      match res with
      | None =>
          Forall (fun c => errOf c = None) (calls (w m')) /\
          concat (map tookOf (calls (w m'))) = b
      | Some e =>
          exists old b' n,
            calls (w m') = old ++ [(b', n, Some e)] /\
            Forall (fun c => errOf c = None) old
      end) /\
  (advances S ->
   forall (fuel : nat) (b : list byte) (m : MdasIO (Recorder S)),
     (length b <= fuel)%nat -> calls (w m) = [] ->
     exists res m',
       writeAll fuel b m = Ret (res, m') /\
       writeAll fuel b (forget m) = Ret (res, forget m') /\
       match res with
       | None =>
           Forall (fun c => errOf c = None) (calls (w m')) /\
           concat (map tookOf (calls (w m'))) = b
       | Some e =>
           exists old b' n,
             calls (w m') = old ++ [(b', n, Some e)] /\
             Forall (fun c => errOf c = None) old
       end) /\
  (forall (k : nat) (got v : list byte),
      (4 <= k)%nat ->
      exists m',
        WriteString (length v) v (NewMdasIO [] (mkChunked k got)) = Ret (None, m') /\
        taken (w m') = got ++ wireString v) /\
  (forall (intSize : Z) (k : nat) (got : list byte) (g : Grid),
      intSize = 32 \/ intSize = 64 -> (4 <= k)%nat ->
      covered g -> 0 <= M (header g) -> 4 * M (header g) < 2 ^ 31 ->
      exists m',
        WriteGrid intSize (Z.to_nat (4 * M (header g))) g
          (NewMdasIO [] (mkChunked k got)) = Ret (None, m') /\
        taken (w m') = got ++ wireGrid g).
Proof.
  assert (Hv : forall (k : nat) (bs : list byte) (n : Z),
             length bs = k -> n < len bs ->
             verdict k (n, None) = Some ErrNoFullWrite).
  { intros k bs n <- Hn. unfold verdict, len in *. cbn [fst snd].
    destruct (Z.eqb_spec n (Z.of_nat (length bs))); [lia | reflexivity]. }
  assert (Hlog : forall (fuel : nat) (b : list byte) (m m' : MdasIO (Recorder S))
                        (res : option error),
             calls (w m) = [] ->
             writeAll fuel b m = Ret (res, m') ->
             match res with
             | None =>
                 Forall (fun c => errOf c = None) (calls (w m')) /\
                 concat (map tookOf (calls (w m'))) = b
             | Some e =>
                 exists old b' n,
                   calls (w m') = old ++ [(b', n, Some e)] /\
                   Forall (fun c => errOf c = None) old
             end).
  { intros fuel b m m' res Hc H.
    destruct (writeAll_log fuel b m m' res H) as (new & Hn & Hres).
    rewrite Hc in Hn. cbn [app] in Hn. rewrite Hn. exact Hres. }
  repeat match goal with |- _ /\ _ => split end.
  - intros v m n s' E Hn. rewrite WriteBool_eq. cbv zeta. rewrite E.
    eexists. split; [cbn [fst snd]; rewrite (Hv 1%nat [if v then Byte.x01 else Byte.x00] n eq_refl Hn); reflexivity | reflexivity].
  - intros v m n s' E Hn. rewrite WriteInt16_eq. cbv zeta. rewrite E.
    eexists. split; [cbn [fst snd]; rewrite (Hv 2%nat _ n (length_le_split _ _) Hn); reflexivity | reflexivity].
  - intros v m n s' E Hn. rewrite WriteInt_eq. cbv zeta. rewrite E.
    eexists. split; [cbn [fst snd]; rewrite (Hv 4%nat _ n (length_le_split _ _) Hn); reflexivity | reflexivity].
  - intros v m n s' E Hn. rewrite WriteInt64_eq. cbv zeta. rewrite E.
    eexists. split; [cbn [fst snd]; rewrite (Hv 8%nat _ n (length_le_split _ _) Hn); reflexivity | reflexivity].
  - intros v m n s' E Hn. rewrite WriteFloat_eq. cbv zeta. rewrite E.
    eexists. split; [cbn [fst snd]; rewrite (Hv 4%nat _ n (length_le_split _ _) Hn); reflexivity | reflexivity].
  - exact Hlog.
  - intros Ha fuel b m Hl Hc.
    destruct (writeAll_returns (advances_Recorder Ha) fuel b m Hl) as (res & m' & E).
    exists res, m'. split; [exact E |]. split.
    + rewrite writeAll_erase, E. reflexivity.
    + apply (Hlog fuel b m m' res Hc E).
  - intros k got v Hk.
    rewrite WriteString_Chunked by exact Hk. cbv zeta. eexists.
    split; [reflexivity |]. reflexivity.
  - intros intSize k got g Hi Hk Hc HM Hmax.
    destruct (WriteGrid_Chunked intSize Hi g (NewMdasIO [] (mkChunked k got))
                Hk Hc HM Hmax) as (scratch & E).
    rewrite E. eexists. split; reflexivity.
Qed.

Lemma short_write_policy_witness :
  (exists m',
      WriteInt 7 (NewMdasIO [] (mkChunked 3 [])) = Ret (Some ErrNoFullWrite, m') /\
      w m' = mkChunked 3 [Byte.x07; Byte.x00; Byte.x00]) /\
  (exists res m',
      writeAll 2 [Byte.x61; Byte.x62]
        (NewMdasIO [] (mkRecorder (mkBuffer []) [])) = Ret (res, m') /\
      writeAll 2 [Byte.x61; Byte.x62] (forget (NewMdasIO [] (mkRecorder (mkBuffer []) [])))
      = Ret (res, forget m') /\
      match res with
      | None =>
          Forall (fun c => errOf c = None) (calls (w m')) /\
          concat (map tookOf (calls (w m'))) = [Byte.x61; Byte.x62]
      | Some e =>
          exists old b' n,
            calls (w m') = old ++ [(b', n, Some e)] /\
            Forall (fun c => errOf c = None) old
      end) /\
  (exists m',
      WriteGrid 64 (Z.to_nat (4 * M (header scenario))) scenario
        (NewMdasIO [] (mkChunked 5 [])) = Ret (None, m') /\
      taken (w m') = [] ++ wireGrid scenario).
Proof.
  split; [| split].
  - destruct (@short_write_policy Chunked _) as (_ & _ & Hi & _).
    apply (Hi 7 (NewMdasIO [] (mkChunked 3 [])) 3).
    + reflexivity.
    + vm_compute. reflexivity.
  - destruct (@short_write_policy Buffer _) as (_ & _ & _ & _ & _ & _ & Ha & _).
    apply (Ha advances_Buffer 2%nat [Byte.x61; Byte.x62]
             (NewMdasIO [] (mkRecorder (mkBuffer []) []))).
    + simpl. lia.
    + reflexivity.
  - destruct (@short_write_policy Buffer _) as (_ & _ & _ & _ & _ & _ & _ & _ & Hg).
    apply (Hg 64 5%nat [] scenario).
    + right. reflexivity.
    + lia.
    + intros _ i Hi. cbn [scenario header N M Data] in *.
      assert (Hc : i = 0 \/ i = 1) by lia.
      destruct Hc as [-> | ->]; eexists;
        (split; [reflexivity | vm_compute; discriminate]).
    + vm_compute. discriminate.
    + vm_compute. reflexivity.
Defined.
